(** * CDC health data / 2016 election correlations

    A shallow embedding of [CDC_healthdata_political_correlations.py]: the
    script reads three tables, cleans the health table, collapses county
    votes to states, joins votes and state shapes onto every health row,
    correlates each survey question with the Republican vote share, writes
    a report and draws one map.

    Python floats and NumPy's float64 are binary64 numbers: they are
    Rocq's primitive floats here, and every arithmetic step of the script
    is the same IEEE operation.  Python strings read with the latin-1
    codec are sequences of code points below 256, that is Rocq strings. *)

From Stdlib Require Import ZArith Lia String Ascii List.
From Stdlib Require Import PrimFloat SpecFloat FloatOps FloatAxioms.
From stdpp Require Import base option list gmap strings sorting.

Open Scope string_scope.
Open Scope list_scope.

(** ** Python values and exceptions *)

(** What a cell of a table read by [pd.read_csv] holds: a string, or a
    number (integers are kept by their binary64 value); a missing value
    is the number NaN. *)
Inductive cell : Type :=
  | CStr (s : string)
  | CNum (f : float).

Definition NaN : cell := CNum nan.

(** [pd.isna] / [pd.notna] on one value. *)
Definition isna (c : cell) : bool :=
  match c with
  | CStr _ => false
  | CNum f => is_nan f
  end.

Definition notna (c : cell) : bool := negb (isna c).

(** Python's [==] on two cell values: NaN is not equal to itself, a
    string never equals a number. *)
Definition py_eq (a b : cell) : bool :=
  match a, b with
  | CStr s, CStr t => String.eqb s t
  | CNum x, CNum y => PrimFloat.eqb x y
  | _, _ => false
  end.

(** Equality of keys in pandas' hash tables ([unique], [mode]): like
    [==], except that all NaN are one key. *)
Definition same_key (a b : cell) : bool :=
  match a, b with
  | CStr s, CStr t => String.eqb s t
  | CNum x, CNum y => PrimFloat.eqb x y || (is_nan x && is_nan y)
  | _, _ => false
  end.

(** The exceptions the script can die of. *)
Inductive exn : Type :=
  | KeyError
  | AttributeError
  | IndexError
  | TypeError.

Inductive result (A : Type) : Type :=
  | Ok (a : A)
  | Raise (e : exn).

Arguments Ok {A} a.
Arguments Raise {A} e.

Definition rbind {A B : Type} (m : result A) (k : A -> result B) : result B :=
  match m with
  | Ok a => k a
  | Raise e => Raise e
  end.

Notation "'do' x <- m ; k" := (rbind m (fun x => k))
  (at level 10, x name, m at level 100, k at level 200).

Definition is_ok {A : Type} (m : result A) : bool :=
  match m with Ok _ => true | Raise _ => false end.

(** ** Series and data frames *)

(** [Series.unique()]: the distinct values in order of first appearance. *)
Fixpoint unique_from (seen : list cell) (l : list cell) : list cell :=
  match l with
  | [] => []
  | c :: l' =>
      if existsb (same_key c) seen then unique_from seen l'
      else c :: unique_from (c :: seen) l'
  end.

Definition unique (l : list cell) : list cell := unique_from [] l.

(** A frame as [read_csv] builds it: named columns over a RangeIndex
    [0 .. nrows-1], so the label of a row is its position. *)
Record DataFrame : Type := mkFrame {
  nrows : nat;
  cols : list (string * list cell)
}.

Definition col_names (df : DataFrame) : list string := map fst (cols df).

Fixpoint assoc (name : string) (cs : list (string * list cell)) : option (list cell) :=
  match cs with
  | [] => None
  | (n, v) :: cs' => if String.eqb n name then Some v else assoc name cs'
  end.

(** [df[name]]: [KeyError] when there is no such column. *)
Definition get_col (df : DataFrame) (name : string) : result (list cell) :=
  match assoc name (cols df) with
  | Some v => Ok v
  | None => Raise KeyError
  end.

(** [df.name]: attribute access, [AttributeError] when there is no such column. *)
Definition get_attr (df : DataFrame) (name : string) : result (list cell) :=
  match assoc name (cols df) with
  | Some v => Ok v
  | None => Raise AttributeError
  end.

Definition mem_str (s : string) (l : list string) : bool := existsb (String.eqb s) l.

(** [df.drop(labels, axis=1)]: every label must name a column, or the
    call raises ([KeyError]; pandas before 0.23 raised [ValueError]
    here).  A label may be listed twice. *)
Definition drop (labels : list string) (df : DataFrame) : result DataFrame :=
  if forallb (fun l => mem_str l (col_names df)) labels
  then Ok (mkFrame (nrows df)
             (List.filter (fun c => negb (mem_str (fst c) labels)) (cols df)))
  else Raise KeyError.

(** ** Cleaning the health table (lines 27-35) *)

Definition denylist : list string :=
  ["DataValueFootnoteSymbol"; "TopicID"; "QuestionID"; "DataValueTypeID";
   "StratificationCategoryID1"; "StratificationID1"].

(** The loop over [columns]: a column joins [useless_cols] when it has
    fewer than 3 distinct values. *)
Definition useless_cols (df : DataFrame) : list string :=
  fold_left
    (fun useless c =>
       if (length (unique (snd c)) <? 3)%nat then useless ++ [fst c] else useless)
    (cols df) denylist.

Definition clean (df : DataFrame) : result DataFrame := drop (useless_cols df) df.

(** [df.loc[mask]]: the rows whose mask entry is true, in order. *)
Fixpoint select {A : Type} (mask : list bool) (l : list A) : list A :=
  match mask, l with
  | b :: mask', x :: l' => if b then x :: select mask' l' else select mask' l'
  | _, _ => []
  end.

Definition count_true (mask : list bool) : nat := length (List.filter (fun b => b) mask).

Definition loc (mask : list bool) (df : DataFrame) : DataFrame :=
  mkFrame (count_true (firstn (nrows df) mask))
          (map (fun c => (fst c, select mask (snd c))) (cols df)).

(** [df.loc[:, name] = values] (and [df[name] = values]): overwrite the
    column when the frame has it, append it as the last column otherwise. *)
Fixpoint set_assoc (name : string) (v : list cell) (cs : list (string * list cell))
  : list (string * list cell) :=
  match cs with
  | [] => [(name, v)]
  | (n, w) :: cs' =>
      if String.eqb n name then (n, v) :: cs' else (n, w) :: set_assoc name v cs'
  end.

Definition set_col (name : string) (v : list cell) (df : DataFrame) : DataFrame :=
  mkFrame (nrows df) (set_assoc name v (cols df)).

(** ** Numeric coercion (line 38) *)

Section Coercion.

(** How [pd.to_numeric] reads one string: its number, or nothing when
    the text is not a number.  The parser is pandas', not the script's. *)
Variable parse_number : string -> option float.

Definition coerce (c : cell) : cell :=
  match c with
  | CNum f => CNum f
  | CStr s => match parse_number s with
              | Some f => CNum f
              | None => NaN
              end
  end.

(** [healthdata["DataValue"] = pd.to_numeric(healthdata.DataValue, errors="coerce")] *)
Definition to_numeric_DataValue (df : DataFrame) : result DataFrame :=
  do v <- get_attr df "DataValue";
  Ok (set_col "DataValue" (map coerce v) df).

End Coercion.

(** ** Election data (lines 42-52) *)

Open Scope float_scope.

(** One county row of the election table, with the columns the script
    names.  A missing state abbreviation is [None]. *)
Record CountyRow : Type := mkCounty {
  state_abbr : option string;
  votes_dem : float;
  votes_gop : float;
  total_votes : float;
  per_dem : float;
  per_gop : float;
  combined_fips : float
}.

(** The sum of a group's column: missing values are skipped and an
    empty sum is 0, the values are added in row order. *)
Definition nansum (l : list float) : float :=
  fold_left (fun acc x => if is_nan x then acc else acc + x) l 0.

(** Python's order on strings, by code point. *)
Definition str_le (s t : string) : Prop := String.leb s t = true.

#[global] Instance str_le_dec (s t : string) : Decision (str_le s t).
Proof. unfold str_le. apply _. Defined.

(** The group keys: the distinct state abbreviations that are present,
    sorted ([groupby] sorts its keys and drops missing ones). *)
Definition group_keys (votedata : list CountyRow) : list string :=
  merge_sort str_le (remove_dups (omap state_abbr votedata)).

Definition in_state (s : string) (r : CountyRow) : bool :=
  match state_abbr r with
  | Some t => String.eqb t s
  | None => false
  end.

Definition county_rows (s : string) (votedata : list CountyRow) : list CountyRow :=
  List.filter (in_state s) votedata.

(** A row of [votedata.groupby(['state_abbr'], as_index=False).sum()]:
    the key and the sum of every numeric column over the group. *)
Record SumRow : Type := mkSum {
  sum_abbr : string;
  sum_votes_dem : float;
  sum_votes_gop : float;
  sum_total_votes : float;
  sum_per_dem : float;
  sum_per_gop : float;
  sum_combined_fips : float
}.

Definition groupby_sum (votedata : list CountyRow) : list SumRow :=
  map (fun s =>
         let g := county_rows s votedata in
         mkSum s
               (nansum (map votes_dem g)) (nansum (map votes_gop g))
               (nansum (map total_votes g))
               (nansum (map per_dem g)) (nansum (map per_gop g))
               (nansum (map combined_fips g)))
      (group_keys votedata).

(** A row of [grouped] once the summed percentages and county codes are
    dropped and the percentages are computed again. *)
Record StateRow : Type := mkState {
  st_abbr : string;
  st_votes_dem : float;
  st_votes_gop : float;
  st_total_votes : float;
  st_per_dem : float;
  st_per_gop : float
}.

Definition recalculate (g : SumRow) : StateRow :=
  mkState (sum_abbr g)
          (sum_votes_dem g) (sum_votes_gop g) (sum_total_votes g)
          ((sum_votes_dem g / sum_total_votes g) * 100)
          ((sum_votes_gop g / sum_total_votes g) * 100).

Definition grouped (votedata : list CountyRow) : list StateRow :=
  map recalculate (groupby_sum votedata).

(** ** Vote data joined to the health data (lines 55-73) *)

(** The loop that fills [voteDict], one key per row of [grouped]. *)
Definition make_voteDict (g : list StateRow) : gmap string (float * float) :=
  fold_left (fun d r => <[st_abbr r := (st_per_dem r, st_per_gop r)]> d) g ∅.

(** [d[row["LocationAbbr"]]] for the row labelled [i]: nothing when the
    lookup raises [KeyError] (no such column, or no such key: the keys
    of the dictionaries are strings). *)
Definition lookup_location {V : Type} (d : gmap string V) (df : DataFrame) (i : nat)
  : option V :=
  match assoc "LocationAbbr" (cols df) with
  | Some v => match v !! i with
              | Some (CStr s) => d !! s
              | _ => None
              end
  | None => None
  end.

(** One turn of the loop over [healthdata.iterrows()]: both entries come
    from the same lookup, both are [None] when it fails. *)
Definition vote_step (voteDict : gmap string (float * float)) (df : DataFrame)
    (acc : gmap nat (option float) * gmap nat (option float)) (index : nat)
  : gmap nat (option float) * gmap nat (option float) :=
  match lookup_location voteDict df index with
  | Some (d, g) => (<[index := Some d]> (fst acc), <[index := Some g]> (snd acc))
  | None => (<[index := None]> (fst acc), <[index := None]> (snd acc))
  end.

Definition vote_dicts (voteDict : gmap string (float * float)) (df : DataFrame)
  : gmap nat (option float) * gmap nat (option float) :=
  fold_left (vote_step voteDict df) (seq 0 (nrows df)) (∅, ∅).

(** [pd.Series(d, index=df.index)] for a dictionary of numbers: the
    value under each label of the index; [None] and a label without an
    entry are NaN. *)
Definition series_of (d : gmap nat (option float)) (n : nat) : list cell :=
  map (fun i => match d !! i with
                | Some (Some f) => CNum f
                | _ => NaN
                end) (seq 0 n).

Definition add_votes (voteDict : gmap string (float * float)) (df : DataFrame)
  : DataFrame :=
  let '(per_dems, per_gops) := vote_dicts voteDict df in
  set_col "per_gop" (series_of per_gops (nrows df))
    (set_col "per_dem" (series_of per_dems (nrows df)) df).

(** ** State shapes joined to the health data (lines 77-96) *)

(** A state's boundary as the shapefile gives it; the script only
    passes shapes around. *)
Definition Polygon : Type := list (float * float).

(** The loop that fills [stateDict] from the columns STUSPS and geometry. *)
Definition make_stateDict (states_gdf : list (string * Polygon)) : gmap string Polygon :=
  fold_left (fun d r => <[fst r := snd r]> d) states_gdf ∅.

Definition geometry_step (stateDict : gmap string Polygon) (df : DataFrame)
    (geometries : gmap nat (option Polygon)) (index : nat)
  : gmap nat (option Polygon) :=
  match lookup_location stateDict df index with
  | Some shape => <[index := Some shape]> geometries
  | None => <[index := None]> geometries
  end.

Definition geometry_dict (stateDict : gmap string Polygon) (df : DataFrame)
  : gmap nat (option Polygon) :=
  fold_left (geometry_step stateDict df) (seq 0 (nrows df)) ∅.

(** [pd.Series(geometries, index=healthdata.index)]: a shape or [None]
    per row. *)
Definition geometry_series (d : gmap nat (option Polygon)) (n : nat)
  : list (option Polygon) :=
  map (fun i => match d !! i with
                | Some (Some shape) => Some shape
                | _ => None
                end) (seq 0 n).

(** A GeoDataFrame: the frame and its geometry series, row by row. *)
Record GeoDataFrame : Type := mkGeo {
  frame : DataFrame;
  geometry : list (option Polygon)
}.

Definition add_geometries (stateDict : gmap string Polygon) (df : DataFrame)
  : GeoDataFrame :=
  mkGeo df (geometry_series (geometry_dict stateDict df) (nrows df)).

Definition geo_loc (mask : list bool) (g : GeoDataFrame) : GeoDataFrame :=
  mkGeo (loc mask (frame g)) (select mask (geometry g)).

(** ** Correlation of one question (lines 100-114) *)

(** The two kinds of number a correlation can be: Python's own [float]
    ([np.nan] is one) and NumPy's scalar [numpy.float64], which is what
    indexing an array gives.  [type(x) == float] holds of the first only. *)
Inductive pynum : Type :=
  | PyFloat (f : float)
  | NpFloat64 (f : float).

Definition value (x : pynum) : float :=
  match x with
  | PyFloat f => f
  | NpFloat64 f => f
  end.

Definition as_float (c : cell) : result float :=
  match c with
  | CNum f => Ok f
  | CStr _ => Raise TypeError
  end.

Fixpoint as_floats (l : list cell) : result (list float) :=
  match l with
  | [] => Ok []
  | c :: l' => do f <- as_float c; do fs <- as_floats l'; Ok (f :: fs)
  end.

(** The pairs [nancorr] keeps: those with both values present. *)
Definition complete_pairs (a b : list float) : list (float * float) :=
  List.filter (fun p => negb (is_nan (fst p)) && negb (is_nan (snd p))) (combine a b).

Section Correlation.

(** [np.corrcoef(a, b)[0, 1]] on the paired observations, the Pearson
    product-moment coefficient as NumPy computes it.  It is NumPy's,
    not the script's: its sums and products are taken in the order of
    NumPy's own kernels, so its bits are not fixed here. *)
Variable np_corrcoef : list (float * float) -> float.

(** [a.corr(b)] for two columns of one frame, with the default method
    (Pearson): [np.nan] when there is no row or no complete pair, and
    [np.corrcoef] of the complete pairs otherwise. *)
Definition corr (a b : list cell) : result pynum :=
  match a with
  | [] => Ok (PyFloat nan)
  | _ :: _ =>
      do x <- as_floats a;
      do y <- as_floats b;
      match complete_pairs x y with
      | [] => Ok (PyFloat nan)
      | pairs => Ok (NpFloat64 (np_corrcoef pairs))
      end
  end.

End Correlation.

(** The order [mode] sorts its values by: strings by code point,
    numbers by size; a number before a string. *)
Definition cell_le (a b : cell) : Prop :=
  match a, b with
  | CStr s, CStr t => str_le s t
  | CNum x, CNum y => PrimFloat.leb x y = true
  | CNum _, CStr _ => True
  | CStr _, CNum _ => False
  end.

#[global] Instance cell_le_dec (a b : cell) : Decision (cell_le a b).
Proof. destruct a, b; simpl; apply _. Defined.

Definition occurrences (c : cell) (l : list cell) : nat :=
  length (List.filter (same_key c) l).

(** [Series.mode()]: the most frequent of the values that are present,
    sorted; empty when none is present. *)
Definition mode (l : list cell) : list cell :=
  let present := List.filter notna l in
  let keys := unique present in
  let top := fold_right (fun c m => Nat.max (occurrences c present) m) 0%nat keys in
  merge_sort cell_le (List.filter (fun c => (occurrences c present =? top)%nat) keys).

(** One tuple of [CORRELATIONS]. *)
Record Entry : Type := mkEntry {
  question : cell;
  units : cell;
  correlation : pynum;
  sub_gdf : GeoDataFrame
}.

(** The two filters of the loop body. *)
Definition overall_rows (gdf : GeoDataFrame) (q : cell) : result GeoDataFrame :=
  do qcol <- get_col (frame gdf) "Question";
  let sub := geo_loc (map (fun c => py_eq c q) qcol) gdf in
  do scol <- get_col (frame sub) "Stratification1";
  Ok (geo_loc (map (fun c => py_eq c (CStr "Overall")) scol) sub).

Section Loop.

Variable np_corrcoef : list (float * float) -> float.

(** One turn of the loop over [QUESTIONS]: the tuple is appended when
    [len(units_mode) > 0], with [units_mode[0]] as its unit. *)
Definition process (gdf : GeoDataFrame) (CORRELATIONS : list Entry) (q : cell)
  : result (list Entry) :=
  do sub <- overall_rows gdf q;
  do dv <- get_col (frame sub) "DataValue";
  do pg <- get_col (frame sub) "per_gop";
  do c <- corr np_corrcoef dv pg;
  do du <- get_attr (frame sub) "DataValueUnit";
  match mode du with
  | u :: _ => Ok (CORRELATIONS ++ [mkEntry q u c sub])
  | [] => Ok CORRELATIONS
  end.

Fixpoint process_all (gdf : GeoDataFrame) (CORRELATIONS : list Entry) (qs : list cell)
  : result (list Entry) :=
  match qs with
  | [] => Ok CORRELATIONS
  | q :: qs' => do acc <- process gdf CORRELATIONS q; process_all gdf acc qs'
  end.

Definition correlations (gdf : GeoDataFrame) : result (list Entry) :=
  do QUESTIONS <- get_attr (frame gdf) "Question";
  process_all gdf [] (unique QUESTIONS).

End Loop.

(** ** Sorting the results (line 116) *)

Section ListSort.

Context {A : Type}.

(** [x < y] on the sort keys. *)
Variable lt : A -> A -> bool.

(** The run that [count_run] finds at the head of the list: the
    elements that follow [prev] without one being less than the one
    before it, and what is left. *)
Fixpoint ascending_run (prev : A) (l : list A) : list A * list A :=
  match l with
  | [] => ([], [])
  | x :: l' =>
      if lt x prev then ([], l)
      else let '(run, rest) := ascending_run x l' in (x :: run, rest)
  end.

(** The same for a strictly descending run. *)
Fixpoint descending_run (prev : A) (l : list A) : list A * list A :=
  match l with
  | [] => ([], [])
  | x :: l' =>
      if lt x prev
      then let '(run, rest) := descending_run x l' in (x :: run, rest)
      else ([], l)
  end.

(** [count_run], with a descending run reversed in place as
    [list.sort] does next. *)
Definition count_run (l : list A) : list A * list A :=
  match l with
  | a :: b :: l' =>
      if lt b a
      then let '(run, rest) := descending_run b l' in (rev (a :: b :: run), rest)
      else let '(run, rest) := ascending_run b l' in (a :: b :: run, rest)
  | _ => (l, [])
  end.

(** The binary search of [binarysort]: the place of [pivot] in the
    sorted prefix [run], between [l] and [r]. *)
Fixpoint bisect (pivot : A) (run : list A) (l r : nat) (fuel : nat) : nat :=
  match fuel with
  | O => l
  | S fuel' =>
      let p := (l + (r - l) / 2)%nat in
      match run !! p with
      | None => l
      | Some x =>
          let '(l', r') := if lt pivot x then (l, p) else (S p, r) in
          if (l' <? r')%nat then bisect pivot run l' r' fuel' else l'
      end
  end.

Definition insert_at (i : nat) (x : A) (l : list A) : list A :=
  firstn i l ++ x :: skipn i l.

(** [binarysort]: every element after the run is put at its place in
    the prefix before it. *)
Fixpoint binarysort (run rest : list A) : list A :=
  match rest with
  | [] => run
  | pivot :: rest' =>
      binarysort
        (insert_at (bisect pivot run 0 (length run) (S (length run))) pivot run)
        rest'
  end.

(** [list.sort] as CPython runs it on a list of fewer than 64
    elements: one run is counted and the rest is inserted by binary
    search.  On longer lists CPython merges several such runs; the
    result is the same whenever [<] orders the keys, since both are
    then sorted and stable ([list_sort_sorted], [list_sort_stable]).
    With 64 elements or more and keys that [<] does not order (NaN
    among them) CPython's merges can leave another order: this
    definition says nothing there. *)
Definition list_sort (l : list A) : list A :=
  let '(run, rest) := count_run l in binarysort run rest.

End ListSort.

(** [x[2] < y[2]] on two tuples. *)
Definition key_lt (x y : Entry) : bool :=
  PrimFloat.ltb (value (correlation x)) (value (correlation y)).

(** [CORRELATIONS.sort(key=lambda x: x[2])] *)
Definition sort_correlations (CORRELATIONS : list Entry) : list Entry :=
  list_sort key_lt CORRELATIONS.

(** ** The report (lines 119-128) *)

Definition newline : string := String (ascii_of_nat 10) EmptyString.

Definition header : string :=
  "Correlation coeffecients between CDC health data questions and percentage of Republican votes on a state-by-state basis"
  +:+ newline +:+ newline.

Fixpoint fill (n : nat) : string :=
  match n with
  | O => EmptyString
  | S n' => String "_" (fill n')
  end.

(** ["{:_<200}".format(s)] *)
Definition format_200 (s : string) : string :=
  s +:+ fill (200 - String.length s).

(** [entry[0] + " (" + entry[1] + ")"]: only strings can be added to a string. *)
Definition qstring (entry : Entry) : result string :=
  match question entry, units entry with
  | CStr q, CStr u => Ok (q +:+ " (" +:+ u +:+ ")")
  | _, _ => Raise TypeError
  end.

Section Report.

(** Python's [str] and [round] on numbers: the interpreter's and
    NumPy's, not the script's. *)
Variable py_str : pynum -> string.
Variable py_round : float -> Z -> float.

(** What is written after the question field. *)
Definition coefficient_text (c : pynum) : string :=
  match c with
  | PyFloat f => py_str (PyFloat (py_round f 3)) +:+ newline
  | NpFloat64 f => py_str (NpFloat64 f) +:+ newline
  end.

Definition report_line (entry : Entry) : result string :=
  do q <- qstring entry;
  Ok (format_200 q +:+ coefficient_text (correlation entry)).

(** The loop over the entries: the text written so far and how the
    loop ended. *)
Fixpoint write_entries (written : string) (entries : list Entry) : string * result unit :=
  match entries with
  | [] => (written, Ok tt)
  | entry :: entries' =>
      match report_line entry with
      | Ok line => write_entries (written +:+ line) entries'
      | Raise e => (written, Raise e)
      end
  end.

Definition write_report (entries : list Entry) : string * result unit :=
  write_entries header entries.

(** ** The map (lines 131-145) and the whole script *)

Record Figure : Type := mkFigure {
  suptitle : string;
  xlim : Z * Z;
  ylim : Z * Z;
  column : string;
  cmap : string;
  plotted : GeoDataFrame
}.

(** What the script leaves behind: the report file, the frame it
    printed, and the figure it hands to geopandas' [plot] and
    [plt.show].  The drawing itself is the libraries': whether they
    draw the figure or refuse it (a frame without any shape) is not
    part of this model. *)
Record World : Type := mkWorld {
  correlations_output : option string;
  printed : option GeoDataFrame;
  shown : option Figure
}.

(** [entry = CORRELATIONS[0]] and what the script asks to be drawn:
    [entry[3]] with the title, limits, column and colour map of lines
    136-144. *)
Definition generate_plot (CORRELATIONS : list Entry) : result (GeoDataFrame * Figure) :=
  match CORRELATIONS with
  | [] => Raise IndexError
  | entry :: _ =>
      let to_plot := sub_gdf entry in
      do title <- qstring entry;
      Ok (to_plot, mkFigure title (-180, -60)%Z (20, 75)%Z "DataValue" "Purples" to_plot)
  end.

Variable parse_number : string -> option float.
Variable np_corrcoef : list (float * float) -> float.

(** Everything up to the sorted list of results. *)
Definition sorted_correlations (healthdata : DataFrame) (votedata : list CountyRow)
    (states_gdf : list (string * Polygon)) : result (list Entry) :=
  do healthdata <- clean healthdata;
  do healthdata <- to_numeric_DataValue parse_number healthdata;
  let voteDict := make_voteDict (grouped votedata) in
  let healthdata := add_votes voteDict healthdata in
  let healthdata_gdf := add_geometries (make_stateDict states_gdf) healthdata in
  do CORRELATIONS <- correlations np_corrcoef healthdata_gdf;
  Ok (sort_correlations CORRELATIONS).

(** The whole script.  [Ok tt] stands for a run in which every
    statement of the script itself went through, the calls into
    matplotlib and geopandas taken to return. *)
Definition main (healthdata : DataFrame) (votedata : list CountyRow)
    (states_gdf : list (string * Polygon)) : World * result unit :=
  match sorted_correlations healthdata votedata states_gdf with
  | Raise e => (mkWorld None None None, Raise e)
  | Ok CORRELATIONS =>
      match write_report CORRELATIONS with
      | (text, Raise e) => (mkWorld (Some text) None None, Raise e)
      | (text, Ok _) =>
          match generate_plot CORRELATIONS with
          | Raise e => (mkWorld (Some text) None None, Raise e)
          | Ok (to_plot, fig) => (mkWorld (Some text) (Some to_plot) (Some fig), Ok tt)
          end
      end
  end.

End Report.


(** * What the specification asks for

    Definitions written from the wording of the specification, to be
    compared with the script's own computation, and the notions of
    order the properties of the sort are stated with. *)

(** The sum of one column over the county rows that carry the state
    abbreviation [s]: the table is read row after row from 0, and a
    row of another state or with a missing count adds nothing. *)
Definition state_sum (field : CountyRow -> float) (s : string)
    (votedata : list CountyRow) : float :=
  fold_left
    (fun total r =>
       match state_abbr r with
       | Some t => if String.eqb t s && negb (is_nan (field r))
                   then total + field r
                   else total
       | None => total
       end)
    votedata 0.

(** What a county row reports besides its own percentages and its
    county code. *)
Definition counts (r : CountyRow) : option string * float * float * float :=
  (state_abbr r, votes_dem r, votes_gop r, total_votes r).


(** The pairs of present numbers of two columns, row by row. *)
Fixpoint present_pairs (a b : list cell) : list (float * float) :=
  match a, b with
  | ca :: a', cb :: b' =>
      match ca, cb with
      | CNum x, CNum y =>
          if negb (is_nan x) && negb (is_nan y)
          then (x, y) :: present_pairs a' b'
          else present_pairs a' b'
      | _, _ => present_pairs a' b'
      end
  | _, _ => []
  end.

(** A coefficient rounded to 3 decimal places, of the kind it was. *)
Definition rounded_3 (py_round : float -> Z -> float) (c : pynum) : pynum :=
  match c with
  | PyFloat f => PyFloat (py_round f 3%Z)
  | NpFloat64 f => NpFloat64 (py_round f 3%Z)
  end.

(** The masks of the two filters of the loop body. *)
Definition question_mask (q : cell) (Question : list cell) : list bool :=
  map (fun c => py_eq c q) Question.

Definition overall_mask (q : cell) (Question Stratification1 : list cell) : list bool :=
  map (fun c => py_eq c (CStr "Overall")) (select (question_mask q Question) Stratification1).

(** "Sorted ascending" for a comparison [lt] on elements that satisfy
    [ok]: no later element is less than an earlier one. *)
Definition not_after {A : Type} (lt : A -> A -> bool) (ok : A -> Prop) (x y : A) : Prop :=
  ok x /\ ok y /\ lt y x = false.

(** A strictly descending pair. *)
Definition falls_to {A : Type} (lt : A -> A -> bool) (ok : A -> Prop) (x y : A) : Prop :=
  ok x /\ ok y /\ lt y x = true.

(** The place of a binary64 number that is not NaN in the order of the
    reals, as a triple compared from left to right. *)
Definition order_key (f : spec_float) : Z * Z * Z :=
  match f with
  | S754_nan => (0, 0, 0)%Z
  | S754_zero _ => (0, 0, 0)%Z
  | S754_infinity true => (-2, 0, 0)%Z
  | S754_infinity false => (2, 0, 0)%Z
  | S754_finite true m e => (-1, - e, Z.neg m)%Z
  | S754_finite false m e => (1, e, Z.pos m)%Z
  end.

Definition key_less (a b : Z * Z * Z) : Prop :=
  let '(a1, a2, a3) := a in
  let '(b1, b2, b3) := b in
  (a1 < b1 \/ (a1 = b1 /\ (a2 < b2 \/ (a2 = b2 /\ a3 < b3))))%Z.

(** An entry whose coefficient is a number. *)
Definition has_number (e : Entry) : Prop := is_nan (value (correlation e)) = false.

(** Two elements that [lt] does not tell apart: equal sort keys. *)
Definition same_rank {A : Type} (lt : A -> A -> bool) (x y : A) : bool :=
  negb (lt x y) && negb (lt y x).

(** * Notions for the further properties *)

(** The value a number stands for in a hash table or a comparison:
    nothing for NaN, its place in the order otherwise (so 0.0 and -0.0
    are one value). *)
Definition float_class (f : float) : option (Z * Z * Z) :=
  if is_nan f then None else Some (order_key (Prim2SF f)).

(** The distinct value a cell counts as in [unique] and [mode]. *)
Definition cell_class (c : cell) : string + option (Z * Z * Z) :=
  match c with
  | CStr s => inl s
  | CNum f => inr (float_class f)
  end.

(** Whether some row of the table has the question [q], the
    Stratification1 "Overall" and a unit of measure that is present. *)
Fixpoint has_unit_row (q : cell) (Question Stratification1 DataValueUnit : list cell)
  : bool :=
  match Question, Stratification1, DataValueUnit with
  | cq :: qs, cs :: ss, cu :: us =>
      (py_eq cq q && py_eq cs (CStr "Overall") && notna cu)
      || has_unit_row q qs ss us
  | _, _, _ => false
  end.

(** The columns the script reads by name after the cleaning. *)
Definition analysed_columns : list string :=
  ["DataValue"; "Question"; "Stratification1"; "DataValueUnit"].

(** The last row of a table with a given key. *)
Definition last_with {V : Type} (s : string) (rows : list (string * V)) : option V :=
  snd <$> List.find (fun r => String.eqb (fst r) s) (rev rows).

(** A cell that is a string. *)
Definition is_str (c : cell) : bool :=
  match c with
  | CStr _ => true
  | CNum _ => false
  end.

(** The order of [cell_le] made total: it is [cell_le] on strings, and
    puts every number before everything. *)
Definition cell_le_str (a b : cell) : Prop :=
  match a, b with
  | CStr s, CStr t => str_le s t
  | CNum _, _ => True
  | CStr _, CNum _ => False
  end.

#[global] Instance cell_le_str_dec (a b : cell) : Decision (cell_le_str a b).
Proof. destruct a, b; simpl; apply _. Defined.

(** Whether a county row reports none of the three counts. *)
Definition no_counts (r : CountyRow) : bool :=
  is_nan (votes_dem r) && is_nan (votes_gop r) && is_nan (total_votes r).

(** * Sample tables

    Small inputs on which the definitions above are run below. *)

Definition strs (l : list string) : list cell := map CStr l.
Definition nums (l : list float) : list cell := map CNum l.

(** Three states; Arizona is reported by two counties. *)
Definition sample_votes : list CountyRow :=
  [ mkCounty (Some "AK") 1 3 4 0.25 0.75 2013;
    mkCounty (Some "AL") 1 1 2 0.5 0.5 1001;
    mkCounty (Some "AZ") 1 1 3 0.5 0.5 4001;
    mkCounty (Some "AZ") 2 0 1 1 0 4003 ].

Definition sample_states : list (string * Polygon) :=
  [ ("AK", [(0, 0); (0, 1); (1, 0)]);
    ("AL", [(2, 0); (2, 1); (3, 0)]) ].

(** Twelve observations of four questions.  The first question has
    five unstratified rows, one of them without a value, and rises with
    the Republican share; the second has a single row; the third falls
    with the Republican share; the fourth has no unit of measure.  PR
    is not a state of the election table. *)
Definition sample_health : DataFrame :=
  mkFrame 12
    [ ("LocationAbbr",
        strs ["AK"; "AL"; "AZ"; "AK"; "AL"; "AK"; "AK"; "AL"; "AZ"; "PR"; "AK"; "AL"]);
      ("Question",
        strs ["Q1"; "Q1"; "Q1"; "Q1"; "Q1"; "Q2"; "Q3"; "Q3"; "Q3"; "Q1"; "Q1"; "Q4"]);
      ("Stratification1",
        strs ["Overall"; "Overall"; "Overall"; "Overall"; "Overall"; "Overall";
              "Overall"; "Overall"; "Overall"; "Male"; "Female"; "Overall"]);
      ("DataValue",
        [CNum 3; CNum 2; CNum 1; CNum 4; NaN; CNum 5; CNum 1; CNum 2; CNum 3;
         CNum 7; CNum 8; CNum 9]);
      ("DataValueUnit",
        strs ["%"; "%"; "%"; "%"; "%"; "Number"; "Years"; "Years"; "Years"; "%"; "%"]
        ++ [NaN]);
      ("DataValueFootnoteSymbol", strs (repeat "*" 12));
      ("TopicID",
        strs ["T1"; "T1"; "T1"; "T1"; "T1"; "T2"; "T3"; "T3"; "T3"; "T1"; "T1"; "T4"]);
      ("QuestionID", strs (repeat "q" 12));
      ("DataValueTypeID", strs (repeat "t" 12));
      ("StratificationCategoryID1", strs (repeat "c" 12));
      ("StratificationID1", strs (repeat "s" 12)) ].

(** The same observations with no unstratified row at all. *)
Definition stratified_health : DataFrame :=
  mkFrame 12
    (set_assoc "Stratification1"
       (strs ["Male"; "Female"; "Other"; "Male"; "Female"; "Male";
              "Male"; "Female"; "Other"; "Male"; "Female"; "Other"])
       (cols sample_health)).

(** A health table without the denylist columns. *)
Definition bare_health : DataFrame :=
  mkFrame 3
    [ ("LocationAbbr", strs ["AK"; "AL"; "AZ"]);
      ("Question", strs ["Q1"; "Q2"; "Q3"]);
      ("DataValue", nums [1; 2; 3]) ].

(** Stand-ins for Python's [str], [round] and pandas' number parser,
    right on the numbers of the sample tables and on nothing else. *)
Definition sample_str (x : pynum) : string :=
  if is_nan (value x) then "nan"
  else if value x =? 1 then "1.0"
  else if value x =? -1 then "-1.0"
  else "?".

Definition sample_round (f : float) (ndigits : Z) : float := f.

Definition sample_parse (s : string) : option float := None.

(** The sum of a list, from 0 and in list order. *)
Definition fsum (l : list float) : float := fold_left PrimFloat.add l 0.

(** The number of elements, as a float. *)
Definition fcount {A : Type} (l : list A) : float :=
  fold_left (fun n _ => n + 1) l 0.

Definition clip (x : float) : float :=
  if x <? -1 then -1 else if 1 <? x then 1 else x.

(** A stand-in for [np.corrcoef(a, b)[0, 1]] on the sample tables: the
    steps of NumPy's [corrcoef] (deviations from the means, their
    products summed and scaled by [1/(n-1)], the covariance divided by
    one standard deviation and then the other, clipped to [-1, 1]) with
    every sum taken in row order.  NumPy's own kernels may add in
    another order and differ in the last bits. *)
Definition pearson (pairs : list (float * float)) : float :=
  let a := map fst pairs in
  let b := map snd pairs in
  let n := fcount pairs in
  let da := map (fun x => x - fsum a / n) a in
  let db := map (fun y => y - fsum b / n) b in
  let fact := 1 / (n - 1) in
  let dot u v := fsum (map (fun p => fst p * snd p) (combine u v)) in
  let caa := dot da da * fact in
  let cbb := dot db db * fact in
  let cab := dot da db * fact in
  clip (cab / sqrt caa / sqrt cbb).

(** The sample health table after cleaning, coercion and both joins. *)
Definition sample_gdf : GeoDataFrame :=
  add_geometries (make_stateDict sample_states)
    (add_votes (make_voteDict (grouped sample_votes))
       (mkFrame 12 (firstn 5 (cols sample_health)))).

(** The results the loop records on it, before they are sorted. *)
Definition sample_results : list Entry :=
  match correlations pearson sample_gdf with
  | Ok CORRELATIONS => CORRELATIONS
  | Raise _ => []
  end.

(** The same results after [CORRELATIONS.sort]. *)
Definition sample_sorted : list Entry := sort_correlations sample_results.

(** The four complete observations of the first sample question. *)
Definition sample_pairs : list (float * float) :=
  [(3, 75); (2, 50); (1, 25); (4, 75)]%float.

(** Four results with numbers for coefficients, two of them equal. *)
Definition toy_results : list Entry :=
  [ mkEntry (CStr "A") (CStr "%") (NpFloat64 2) sample_gdf;
    mkEntry (CStr "B") (CStr "%") (NpFloat64 (-1)) sample_gdf;
    mkEntry (CStr "C") (CStr "%") (NpFloat64 2) sample_gdf;
    mkEntry (CStr "D") (CStr "%") (NpFloat64 0.5) sample_gdf ].

(** A shapefile that lists Alaska twice. *)
Definition doubled_states : list (string * Polygon) :=
  [ ("AK", [(0, 0); (0, 1); (1, 0)]);
    ("AL", [(2, 0); (2, 1); (3, 0)]);
    ("AK", [(5, 5); (5, 6); (6, 5)]) ]%float.

(** Eleven observations of three questions whose coefficients are all
    numbers: the first question rises with the Republican share, the
    third falls with it, the second lies between. *)
Definition tidy_health : DataFrame :=
  mkFrame 11
    [ ("LocationAbbr",
        strs ["AK"; "AL"; "AZ"; "AK"; "AL"; "AZ"; "AK"; "AL"; "AZ"; "AK"; "AK"]);
      ("Question",
        strs ["Q1"; "Q1"; "Q1"; "Q2"; "Q2"; "Q2"; "Q3"; "Q3"; "Q3"; "Q1"; "Q1"]);
      ("Stratification1",
        strs ["Overall"; "Overall"; "Overall"; "Overall"; "Overall"; "Overall";
              "Overall"; "Overall"; "Overall"; "Male"; "Female"]);
      ("DataValue", nums [3; 2; 1; 1; 3; 2; 1; 2; 3; 7; 8]%float);
      ("DataValueUnit",
        strs ["%"; "%"; "%"; "Number"; "Number"; "Number"; "Years"; "Years"; "Years";
              "%"; "%"]);
      ("DataValueFootnoteSymbol", strs (repeat "*" 11));
      ("TopicID", strs (repeat "T" 11));
      ("QuestionID", strs (repeat "q" 11));
      ("DataValueTypeID", strs (repeat "t" 11));
      ("StratificationCategoryID1", strs (repeat "c" 11));
      ("StratificationID1", strs (repeat "s" 11)) ].

(** Its sorted results. *)
Definition tidy_sorted : list Entry :=
  match sorted_correlations sample_parse pearson tidy_health sample_votes sample_states with
  | Ok CORRELATIONS => CORRELATIONS
  | Raise _ => []
  end.

(** The same observations restricted beforehand to the unstratified
    rows: Stratification1 holds one value only. *)
Definition overall_only_health : DataFrame :=
  mkFrame 9
    (map (fun c => (fst c, firstn 9 (snd c))) (cols tidy_health)).

(** The observations of two states only. *)
Definition two_state_health : DataFrame :=
  mkFrame 11
    (set_assoc "LocationAbbr"
       (strs ["AK"; "AL"; "AK"; "AK"; "AL"; "AL"; "AK"; "AL"; "AK"; "AK"; "AK"])
       (cols tidy_health)).

(** A table whose DataValue column was read as text. *)
Definition text_health : DataFrame :=
  mkFrame 3
    [ ("Question", strs ["Q1"; "Q2"; "Q3"]);
      ("DataValue", [CStr "n/a"; CNum 2; CStr "~"]%float) ].

(** The observations with numbers in place of the unit of the second
    question. *)
Definition number_unit_health : DataFrame :=
  mkFrame 11
    (set_assoc "DataValueUnit"
       ([CStr "%"; CStr "%"; CStr "%"; CNum 1; CNum 1; CNum 1;
         CStr "Years"; CStr "Years"; CStr "Years"; CStr "%"; CStr "%"])%float
       (cols tidy_health)).

(** An election table in which Alabama's only county reports no
    counts. *)
Definition silent_votes : list CountyRow :=
  [ mkCounty (Some "AK") 1 3 4 0.25 0.75 2013;
    mkCounty (Some "AL") nan nan nan nan nan 1001 ].

(** Observations whose first question has two units equally often. *)
Definition tied_health : DataFrame :=
  mkFrame 11
    (set_assoc "DataValueUnit"
       (strs ["per 100,000"; "Number"; "%"; "Number"; "Number"; "Number";
              "Years"; "Years"; "Years"; "%"; "%"])
       (cols tidy_health)).

Definition tied_gdf : GeoDataFrame :=
  add_geometries (make_stateDict sample_states)
    (add_votes (make_voteDict (grouped sample_votes))
       (mkFrame 11 (firstn 5 (cols tied_health)))).

Definition tied_results : list Entry :=
  match correlations pearson tied_gdf with
  | Ok CORRELATIONS => CORRELATIONS
  | Raise _ => []
  end.

(** A result whose question is 219 characters long. *)
Definition long_entry : Entry :=
  mkEntry (CStr (String.concat " " (repeat "prevalence" 20))) (CStr "%")
          (NpFloat64 1) sample_gdf.

(** Observations of two questions; the second has units of measure,
    but on stratified rows only. *)
Definition strata_gdf : GeoDataFrame :=
  add_geometries (make_stateDict sample_states)
    (add_votes (make_voteDict (grouped sample_votes))
       (mkFrame 6
          [ ("LocationAbbr", strs ["AK"; "AL"; "AZ"; "AK"; "AL"; "AZ"]);
            ("Question", strs ["Q1"; "Q1"; "Q1"; "Q5"; "Q5"; "Q5"]);
            ("Stratification1",
              strs ["Overall"; "Overall"; "Overall"; "Male"; "Female"; "Male"]);
            ("DataValue", nums [3; 2; 1; 4; 5; 6]%float);
            ("DataValueUnit", strs ["%"; "%"; "%"; "Number"; "Number"; "Number"]) ])).

Definition strata_results : list Entry :=
  match correlations pearson strata_gdf with
  | Ok CORRELATIONS => CORRELATIONS
  | Raise _ => []
  end.
(** * Properties *)

(** ** Cleaning *)

Lemma mem_str_In (s : string) (l : list string) : mem_str s l = true <-> In s l.
Proof.
  unfold mem_str. rewrite existsb_exists. split.
  - intros (x & Hx & E). apply String.eqb_eq in E. now subst.
  - intros H. exists s. split; [assumption | apply String.eqb_refl].
Qed.

Lemma mem_str_not_In (s : string) (l : list string) : mem_str s l = false <-> ~ In s l.
Proof.
  rewrite <- mem_str_In. destruct (mem_str s l); split; congruence.
Qed.

(** The loop only ever appends to [useless_cols]. *)
Lemma useless_loop_In (cs : list (string * list cell)) (start : list string) (s : string) :
  In s (fold_left
          (fun useless c =>
             if (length (unique (snd c)) <? 3)%nat then useless ++ [fst c] else useless)
          cs start)
  <-> In s start \/
      exists c, In c cs /\ fst c = s /\ (length (unique (snd c)) < 3)%nat.
Proof.
  revert start. induction cs as [|c cs IH]; intros start; simpl.
  - split; [auto | intros [H | (c & [] & _)]; exact H].
  - rewrite IH. destruct (Nat.ltb_spec (length (unique (snd c))) 3) as [Hlt | Hge].
    + rewrite in_app_iff. simpl. split.
      * intros [[H | [H | []]] | (c' & Hc' & R)]; eauto 6.
      * intros [H | (c' & [-> | Hc'] & E & L)]; eauto 7.
    + split.
      * intros [H | (c' & Hc' & R)]; eauto 6.
      * intros [H | (c' & [-> | Hc'] & E & L)]; [auto | lia | eauto 6].
Qed.

Lemma useless_cols_In (df : DataFrame) (s : string) :
  In s (useless_cols df)
  <-> In s denylist \/
      exists c, In c (cols df) /\ fst c = s /\ (length (unique (snd c)) < 3)%nat.
Proof. apply useless_loop_In. Qed.

Lemma drop_Ok (labels : list string) (df df' : DataFrame) :
  drop labels df = Ok df' ->
  (forall l, In l labels -> In l (col_names df)) /\
  nrows df' = nrows df /\
  cols df' = List.filter (fun c => negb (mem_str (fst c) labels)) (cols df).
Proof.
  unfold drop. destruct (forallb _ labels) eqn:E; [|discriminate].
  intros [= <-]. split; [|split; reflexivity].
  intros l Hl. rewrite forallb_forall in E. apply mem_str_In. now apply E.
Qed.

Lemma drop_missing (labels : list string) (df : DataFrame) (l : string) :
  In l labels -> ~ In l (col_names df) -> drop labels df = Raise KeyError.
Proof.
  intros Hl Hn. unfold drop.
  destruct (forallb _ labels) eqn:E; [|reflexivity].
  rewrite forallb_forall in E. apply E in Hl. apply mem_str_In in Hl. contradiction.
Qed.

Lemma drop_present (labels : list string) (df : DataFrame) :
  (forall l, In l labels -> In l (col_names df)) -> is_ok (drop labels df) = true.
Proof.
  intros H. unfold drop.
  destruct (forallb _ labels) eqn:E; [reflexivity|].
  apply Bool.not_true_iff_false in E. exfalso. apply E.
  apply forallb_forall. intros l Hl. apply mem_str_In. auto.
Qed.

(** The cleaner succeeds exactly on the tables that have the six
    columns of the denylist. *)
Lemma clean_ok_iff (df : DataFrame) :
  is_ok (clean df) = true <-> (forall d, In d denylist -> In d (col_names df)).
Proof.
  split.
  - intros H d Hd. unfold clean in H.
    destruct (drop (useless_cols df) df) as [df'|] eqn:E; [|discriminate].
    apply drop_Ok in E as (Hall & _). apply Hall. apply useless_cols_In. now left.
  - intros H. apply drop_present. intros l Hl.
    apply useless_cols_In in Hl as [Hl | (c & Hc & <- & _)]; [auto|].
    unfold col_names. now apply in_map.
Qed.

(** C10: when any of the six denylist columns is missing from the raw
    health table, the column drop raises [KeyError] and the cleaner
    returns no table, whatever the distinct-value counts are. *)
Theorem clean_requires_denylist (df : DataFrame) (d : string) :
  In d denylist -> ~ In d (col_names df) -> clean df = Raise KeyError.
Proof.
  intros Hd Hn. unfold clean. apply drop_missing with (l := d); [|exact Hn].
  apply useless_cols_In. now left.
Qed.

(** C4 as amended: once the cleaner succeeds on a table with distinct
    column names, a column with fewer than 3 distinct values is gone,
    every denylist column is gone, and a column with 3 or more distinct
    values that is not on the denylist is kept with its cells. *)
Theorem clean_prunes_columns (df df' : DataFrame) (c : string * list cell) :
  NoDup (col_names df) ->
  clean df = Ok df' ->
  In c (cols df) ->
  ((length (unique (snd c)) < 3)%nat -> ~ In (fst c) (col_names df')) /\
  (In (fst c) denylist -> ~ In (fst c) (col_names df')) /\
  ((3 <= length (unique (snd c)))%nat -> ~ In (fst c) denylist -> In c (cols df')).
Proof.
  intros Hnd Hclean Hc. unfold clean in Hclean.
  apply drop_Ok in Hclean as (_ & _ & Hcols).
  assert (Hgone : forall s, In s (useless_cols df) -> ~ In s (col_names df')).
  { intros s Hs Hin. unfold col_names in Hin. rewrite Hcols in Hin.
    apply in_map_iff in Hin as (c' & <- & Hc').
    apply filter_In in Hc' as (_ & Hc').
    apply Bool.negb_true_iff, mem_str_not_In in Hc'. contradiction. }
  split; [|split].
  - intros Hlt. apply Hgone, useless_cols_In. right. eauto.
  - intros Hd. apply Hgone, useless_cols_In. now left.
  - intros Hge Hdeny. rewrite Hcols. apply filter_In. split; [exact Hc|].
    apply Bool.negb_true_iff, mem_str_not_In. intros Hu.
    apply useless_cols_In in Hu as [Hu | (c' & Hc' & E & Hlt)]; [contradiction|].
    assert (c' = c); [|subst; lia].
    clear - Hnd Hc Hc' E. unfold col_names in Hnd.
    induction (cols df) as [|x xs IH]; [contradiction|].
    simpl in Hnd. apply NoDup_cons in Hnd as (Hx & Hxs).
    destruct Hc as [-> | Hc], Hc' as [-> | Hc']; auto.
    + exfalso. apply Hx. rewrite list_elem_of_In, <- E. now apply in_map.
    + exfalso. apply Hx. rewrite list_elem_of_In, E. now apply in_map.
Qed.

Lemma clean_requires_denylist_witness :
  In "TopicID" denylist /\ ~ In "TopicID" (col_names bare_health) /\
  clean bare_health = Raise KeyError.
Proof.
  assert (Hd : In "TopicID" denylist) by (vm_compute; tauto).
  assert (Hn : ~ In "TopicID" (col_names bare_health)).
  { vm_compute. intros [H | [H | [H | []]]]; discriminate H. }
  exact (conj Hd (conj Hn (clean_requires_denylist bare_health "TopicID" Hd Hn))).
Defined.

(** The cleaned sample table: the six denylist columns are gone, TopicID
    among them although it has three distinct values. *)
Lemma clean_sample_health :
  clean sample_health = Ok (mkFrame 12 (firstn 5 (cols sample_health))).
Proof. vm_compute. reflexivity. Qed.

(** C4 as stated fails: TopicID has 3 distinct values in the sample
    table and is not in the cleaned table. *)
Lemma denylist_column_not_retained :
  ~ (forall df df' c,
       clean df = Ok df' -> In c (cols df) ->
       (3 <= length (unique (snd c)))%nat -> In (fst c) (col_names df')).
Proof.
  intros H.
  specialize (H sample_health _
                ("TopicID",
                 strs ["T1"; "T1"; "T1"; "T1"; "T1"; "T2"; "T3"; "T3"; "T3"; "T1"; "T1"; "T4"])
                clean_sample_health).
  assert (Hin : In "TopicID" (col_names (mkFrame 12 (firstn 5 (cols sample_health))))).
  { apply H; [vm_compute; tauto | vm_compute; lia]. }
  vm_compute in Hin.
  repeat (destruct Hin as [Hin | Hin]; [discriminate Hin|]). exact Hin.
Qed.

Lemma clean_prunes_columns_witness :
  let c := ("Question",
            strs ["Q1"; "Q1"; "Q1"; "Q1"; "Q1"; "Q2"; "Q3"; "Q3"; "Q3"; "Q1"; "Q1"; "Q4"]) in
  In c (cols (mkFrame 12 (firstn 5 (cols sample_health)))).
Proof.
  intros c.
  assert (Hnd : NoDup (col_names sample_health)).
  { apply (bool_decide_unpack _). vm_compute. reflexivity. }
  assert (Hc : In c (cols sample_health)) by (vm_compute; tauto).
  assert (H3 : (3 <= length (unique (snd c)))%nat) by (vm_compute; lia).
  assert (Hd : ~ In (fst c) denylist).
  { vm_compute. intros H. repeat (destruct H as [H | H]; [discriminate H|]). exact H. }
  exact (proj2 (proj2 (clean_prunes_columns sample_health _ c Hnd clean_sample_health Hc))
           H3 Hd).
Defined.

(** ** Election aggregate *)

Lemma group_keys_In (votedata : list CountyRow) (s : string) :
  In s (group_keys votedata) <-> exists r, In r votedata /\ state_abbr r = Some s.
Proof.
  unfold group_keys. rewrite <- list_elem_of_In, merge_sort_Permutation.
  rewrite elem_of_remove_dups, list_elem_of_omap.
  setoid_rewrite list_elem_of_In. reflexivity.
Qed.

Lemma group_keys_NoDup (votedata : list CountyRow) : NoDup (group_keys votedata).
Proof.
  unfold group_keys. rewrite merge_sort_Permutation. apply NoDup_remove_dups.
Qed.

(** [groupby] leaves one row per state. *)
Lemma grouped_abbrs (votedata : list CountyRow) :
  map st_abbr (grouped votedata) = group_keys votedata.
Proof.
  unfold grouped, groupby_sum. rewrite !map_map. simpl. apply map_id.
Qed.

Lemma grouped_one_row_per_state (votedata : list CountyRow) :
  NoDup (map st_abbr (grouped votedata)).
Proof. rewrite grouped_abbrs. apply group_keys_NoDup. Qed.

(** Two rows of [grouped] for one state are the same row. *)
Lemma grouped_row_unique (votedata : list CountyRow) (s : string)
    (row row' : StateRow) :
  In row (grouped votedata) -> In row' (grouped votedata) ->
  st_abbr row = s -> st_abbr row' = s -> row = row'.
Proof.
  unfold grouped, groupby_sum. rewrite map_map.
  intros H H' E E'.
  apply in_map_iff in H as (k & <- & _). apply in_map_iff in H' as (k' & <- & _).
  simpl in E, E'. now subst.
Qed.

(** The group's sum, written as one pass over the whole table. *)
Lemma nansum_state_sum (field : CountyRow -> float) (s : string)
    (votedata : list CountyRow) :
  nansum (map field (county_rows s votedata)) = state_sum field s votedata.
Proof.
  unfold nansum, state_sum, county_rows. generalize 0%float as total.
  induction votedata as [|r votedata IH]; intros total; [reflexivity|].
  cbn [List.filter fold_left]. unfold in_state at 1.
  destruct (state_abbr r) as [t|]; [|apply IH].
  destruct (String.eqb t s); [|apply IH].
  cbn [map fold_left andb]. rewrite <- IH.
  now destruct (is_nan (field r)).
Qed.

(** A sum reads the abbreviation and its own column only. *)
Lemma state_sum_ext (field : CountyRow -> float) (s : string)
    (votedata votedata' : list CountyRow) :
  map (fun r => (state_abbr r, field r)) votedata'
  = map (fun r => (state_abbr r, field r)) votedata ->
  state_sum field s votedata' = state_sum field s votedata.
Proof.
  unfold state_sum. generalize 0%float as total. revert votedata'.
  induction votedata as [|r votedata IH]; intros [|r' votedata'] total H;
    try discriminate H; [reflexivity|].
  injection H as Hs Hf H. cbn [fold_left]. rewrite Hs, Hf. now apply IH.
Qed.

Lemma map_counts (field : CountyRow -> float) (votedata votedata' : list CountyRow) :
  In field [votes_dem; votes_gop; total_votes] ->
  map counts votedata' = map counts votedata ->
  map (fun r => (state_abbr r, field r)) votedata'
  = map (fun r => (state_abbr r, field r)) votedata.
Proof.
  intros Hf. revert votedata'.
  induction votedata as [|r votedata IH]; intros [|r' votedata'] H;
    try discriminate H; [reflexivity|].
  cbn [map] in H. unfold counts in H. injection H as Hs Hd Hg Ht H. cbn [map].
  rewrite (IH _ H), Hs.
  destruct Hf as [<- | [<- | [<- | []]]]; congruence.
Qed.

Lemma group_keys_counts (votedata votedata' : list CountyRow) :
  map counts votedata' = map counts votedata ->
  group_keys votedata' = group_keys votedata.
Proof.
  intros H. unfold group_keys. do 2 f_equal. revert votedata' H.
  induction votedata as [|r votedata IH]; intros [|r' votedata'] H;
    try discriminate H; [reflexivity|].
  cbn [map] in H. unfold counts in H. injection H as Hs _ _ _ H.
  cbn [omap list_omap].
  now rewrite Hs, (IH _ H).
Qed.

Lemma filter_no_key {A : Type} (key : A -> string) (s : string) (l : list A) :
  (forall z, In z l -> key z <> s) ->
  List.filter (fun y => String.eqb (key y) s) l = [].
Proof.
  induction l as [|y l IH]; intros H; [reflexivity|]. cbn [List.filter].
  destruct (String.eqb_spec (key y) s) as [E | _].
  - exfalso. exact (H y (or_introl eq_refl) E).
  - apply IH. intros z Hz. apply H. now right.
Qed.

(** The one row of a key among rows with distinct keys. *)
Lemma filter_one_key {A : Type} (key : A -> string) (s : string) (l : list A) (x : A) :
  NoDup (map key l) -> In x l -> key x = s ->
  List.filter (fun y => String.eqb (key y) s) l = [x].
Proof.
  intros Hnd Hx Hs. induction l as [|y l IH]; [contradiction|].
  cbn [map] in Hnd. apply NoDup_cons in Hnd as [Hy Hnd]. cbn [List.filter].
  destruct Hx as [-> | Hx].
  - rewrite Hs, String.eqb_refl. f_equal.
    apply filter_no_key. intros z Hz E. apply Hy.
    rewrite Hs, <- E. apply list_elem_of_In. now apply in_map.
  - destruct (String.eqb_spec (key y) s) as [E | _]; [|now apply IH].
    exfalso. apply Hy. rewrite E, <- Hs. apply list_elem_of_In. now apply in_map.
Qed.

(** C2 as amended: every state of the election table has exactly one
    aggregated row; its three vote counts are the sums (missing counts
    skipped) over the county rows of that state, its percentages are
    the binary64 results of (votes / total_votes) * 100 on those sums,
    and the row is the same whatever percentages the county rows
    carry. *)
Theorem grouped_from_summed_totals (votedata : list CountyRow) (s : string) (r : CountyRow) :
  In r votedata -> state_abbr r = Some s ->
  exists row,
    List.filter (fun g => String.eqb (st_abbr g) s) (grouped votedata) = [row] /\
    st_total_votes row = state_sum total_votes s votedata /\
    st_votes_dem row = state_sum votes_dem s votedata /\
    st_votes_gop row = state_sum votes_gop s votedata /\
    st_per_dem row
    = (state_sum votes_dem s votedata / state_sum total_votes s votedata * 100)%float /\
    st_per_gop row
    = (state_sum votes_gop s votedata / state_sum total_votes s votedata * 100)%float /\
    forall votedata',
      map counts votedata' = map counts votedata -> In row (grouped votedata').
Proof.
  intros Hr Hs.
  assert (Hkey : In s (group_keys votedata)) by (apply group_keys_In; eauto).
  set (row := mkState s
                (state_sum votes_dem s votedata) (state_sum votes_gop s votedata)
                (state_sum total_votes s votedata)
                (state_sum votes_dem s votedata / state_sum total_votes s votedata * 100)
                (state_sum votes_gop s votedata / state_sum total_votes s votedata * 100)).
  assert (Hrow : forall votedata',
             map counts votedata' = map counts votedata -> In row (grouped votedata')).
  { intros votedata' H. unfold grouped, groupby_sum. rewrite map_map.
    apply in_map_iff. exists s. split.
    - unfold recalculate. cbn [sum_abbr sum_votes_dem sum_votes_gop sum_total_votes].
      rewrite !nansum_state_sum.
      rewrite (state_sum_ext votes_dem s votedata votedata'),
              (state_sum_ext votes_gop s votedata votedata'),
              (state_sum_ext total_votes s votedata votedata');
        [reflexivity | | |]; apply map_counts; simpl; auto.
    - now rewrite (group_keys_counts _ _ H). }
  exists row. split.
  - apply filter_one_key; [apply grouped_one_row_per_state | now apply Hrow | reflexivity].
  - repeat split; try reflexivity. exact Hrow.
Qed.

Lemma grouped_from_summed_totals_witness :
  In (mkCounty (Some "AZ") 1 1 3 0.5 0.5 4001) sample_votes /\
  exists row,
    List.filter (fun g => String.eqb (st_abbr g) "AZ") (grouped sample_votes) = [row] /\
    st_total_votes row = 4%float /\ st_votes_dem row = 3%float /\
    st_votes_gop row = 1%float /\
    st_per_dem row = 75%float /\ st_per_gop row = 25%float.
Proof.
  split; [simpl; tauto|].
  destruct (grouped_from_summed_totals sample_votes "AZ"
              (mkCounty (Some "AZ") 1 1 3 0.5 0.5 4001)
              (or_intror (or_intror (or_introl eq_refl))) eq_refl)
    as (row & Hrow & Htot & Hdem & Hgop & Hpd & Hpg & _).
  exists row. split; [exact Hrow|].
  rewrite Htot, Hdem, Hgop, Hpd, Hpg. repeat split; vm_compute; reflexivity.
Defined.

(** C2 as stated fails in binary64: one county with 1 vote out of 3
    gives (1/3)*100 = 33.33333333333333, while 100*1/3 is
    33.333333333333336. *)
Lemma percent_differs_from_hundred_times_ratio :
  ~ (forall votedata row,
       In row (grouped votedata) ->
       st_per_dem row = (100 * st_votes_dem row / st_total_votes row)%float).
Proof.
  intros H.
  specialize (H [mkCounty (Some "AK") 1 2 3 0 0 2013]
                (mkState "AK" 1 2 3 (1 / 3 * 100) (2 / 3 * 100))
                (or_introl eq_refl)).
  simpl in H.
  apply (f_equal (fun x => PrimFloat.eqb x (100 * 1 / 3))) in H.
  vm_compute in H. discriminate H.
Qed.

(** ** Joins *)

Lemma assoc_set_assoc_eq (name : string) (v : list cell) (cs : list (string * list cell)) :
  assoc name (set_assoc name v cs) = Some v.
Proof.
  induction cs as [|[n w] cs IH]; simpl.
  - now rewrite String.eqb_refl.
  - destruct (String.eqb n name) eqn:E; simpl; rewrite E; [reflexivity | exact IH].
Qed.

Lemma assoc_set_assoc_ne (name other : string) (v : list cell)
    (cs : list (string * list cell)) :
  other <> name -> assoc other (set_assoc name v cs) = assoc other cs.
Proof.
  intros Hne. induction cs as [|[n w] cs IH]; simpl.
  - apply String.eqb_neq in Hne. rewrite String.eqb_sym. now rewrite Hne.
  - destruct (String.eqb n name) eqn:E; simpl.
    + apply String.eqb_eq in E. subst n.
      apply String.eqb_neq in Hne. rewrite String.eqb_sym. now rewrite Hne.
    + now rewrite IH.
Qed.

(** Setting a column leaves the other columns where they are. *)
Lemma set_assoc_others (keep : string * list cell -> bool) (name : string) (v : list cell)
    (cs : list (string * list cell)) :
  (forall w, keep (name, w) = false) ->
  List.filter keep (set_assoc name v cs) = List.filter keep cs.
Proof.
  intros Hk. induction cs as [|[n w] cs IH]; simpl.
  - now rewrite Hk.
  - destruct (String.eqb n name) eqn:E; simpl.
    + apply String.eqb_eq in E. subst n. now rewrite !Hk.
    + now rewrite IH.
Qed.

(** A loop that stores [f i] under every label [i] it visits. *)
Lemma fill_lookup {V : Type} (f : nat -> V) (labels : list nat) (start : gmap nat V) (j : nat) :
  fold_left (fun d i => <[i := f i]> d) labels start !! j
  = if decide (j ∈ labels) then Some (f j) else start !! j.
Proof.
  revert start. induction labels as [|i labels IH]; intros start; simpl.
  - reflexivity.
  - rewrite IH. destruct (decide (j ∈ labels)) as [Hin | Hnin].
    + rewrite decide_True by (apply elem_of_cons; now right). reflexivity.
    + destruct (decide (j = i)) as [-> | Hne].
      * rewrite decide_True by (apply elem_of_cons; now left).
        now rewrite lookup_insert_eq.
      * rewrite decide_False by (rewrite elem_of_cons; tauto).
        now rewrite lookup_insert_ne by congruence.
Qed.

Lemma vote_dicts_fst (voteDict : gmap string (float * float)) (df : DataFrame)
    (labels : list nat) (acc : gmap nat (option float) * gmap nat (option float)) :
  fst (fold_left (vote_step voteDict df) labels acc)
  = fold_left (fun d i => <[i := fst <$> lookup_location voteDict df i]> d) labels (fst acc).
Proof.
  revert acc. induction labels as [|i labels IH]; intros acc; simpl; [reflexivity|].
  rewrite IH. f_equal. unfold vote_step.
  destruct (lookup_location voteDict df i) as [[d g]|]; reflexivity.
Qed.

Lemma vote_dicts_snd (voteDict : gmap string (float * float)) (df : DataFrame)
    (labels : list nat) (acc : gmap nat (option float) * gmap nat (option float)) :
  snd (fold_left (vote_step voteDict df) labels acc)
  = fold_left (fun d i => <[i := snd <$> lookup_location voteDict df i]> d) labels (snd acc).
Proof.
  revert acc. induction labels as [|i labels IH]; intros acc; simpl; [reflexivity|].
  rewrite IH. f_equal. unfold vote_step.
  destruct (lookup_location voteDict df i) as [[d g]|]; reflexivity.
Qed.

Lemma geometry_dict_fill (stateDict : gmap string Polygon) (df : DataFrame)
    (labels : list nat) (start : gmap nat (option Polygon)) :
  fold_left (geometry_step stateDict df) labels start
  = fold_left (fun d i => <[i := lookup_location stateDict df i]> d) labels start.
Proof.
  revert start. induction labels as [|i labels IH]; intros start; simpl; [reflexivity|].
  rewrite IH. f_equal. unfold geometry_step.
  destruct (lookup_location stateDict df i); reflexivity.
Qed.

Lemma in_range (i n : nat) : (i < n)%nat -> i ∈ seq 0 n.
Proof. intros H. apply list_elem_of_In, in_seq. lia. Qed.

Lemma series_of_lookup (d : gmap nat (option float)) (n i : nat) :
  (i < n)%nat ->
  series_of d n !! i
  = Some (match d !! i with Some (Some f) => CNum f | _ => NaN end).
Proof.
  intros H. unfold series_of. rewrite list_lookup_fmap, lookup_seq_lt by exact H.
  reflexivity.
Qed.

Lemma geometry_series_lookup (d : gmap nat (option Polygon)) (n i : nat) :
  (i < n)%nat ->
  geometry_series d n !! i
  = Some (match d !! i with Some (Some shape) => Some shape | _ => None end).
Proof.
  intros H. unfold geometry_series. rewrite list_lookup_fmap, lookup_seq_lt by exact H.
  reflexivity.
Qed.

(** What the loop over [grouped] leaves in [voteDict]. *)
Lemma voteDict_loop_lookup (g : list StateRow) (start : gmap string (float * float))
    (s : string) :
  NoDup (map st_abbr g) ->
  fold_left (fun d r => <[st_abbr r := (st_per_dem r, st_per_gop r)]> d) g start !! s
  = match List.find (fun r => String.eqb (st_abbr r) s) g with
    | Some r => Some (st_per_dem r, st_per_gop r)
    | None => start !! s
    end.
Proof.
  revert start. induction g as [|r g IH]; intros start Hnd; [reflexivity|].
  simpl in Hnd. apply NoDup_cons in Hnd as [Hr Hnd]. simpl. rewrite (IH _ Hnd).
  destruct (String.eqb_spec (st_abbr r) s) as [<- | Hne].
  - destruct (List.find _ g) as [r'|] eqn:Ef; [|apply lookup_insert_eq].
    apply find_some in Ef as [Hin E]. apply String.eqb_eq in E.
    exfalso. apply Hr. rewrite <- E. apply list_elem_of_In. now apply in_map.
  - destruct (List.find _ g); [reflexivity|]. now apply lookup_insert_ne.
Qed.

(** The dictionary has an entry for a state exactly when the election
    aggregate has a row for it, and the entry is that row's pair. *)
Lemma voteDict_lookup (votedata : list CountyRow) (s : string) (p : float * float) :
  make_voteDict (grouped votedata) !! s = Some p <->
  exists row, In row (grouped votedata) /\ st_abbr row = s /\
              p = (st_per_dem row, st_per_gop row).
Proof.
  unfold make_voteDict.
  rewrite voteDict_loop_lookup by apply grouped_one_row_per_state.
  rewrite lookup_empty. split.
  - destruct (List.find _ _) as [row|] eqn:Ef; [|discriminate].
    intros [= <-]. apply find_some in Ef as [Hin E]. apply String.eqb_eq in E. eauto.
  - intros (row & Hin & Hs & ->).
    destruct (List.find _ _) as [row'|] eqn:Ef.
    + apply find_some in Ef as [Hin' E]. apply String.eqb_eq in E.
      destruct (grouped_row_unique votedata s row row'); auto.
    + exfalso. apply (find_none _ _ Ef) in Hin. apply String.eqb_neq in Hin. auto.
Qed.

Lemma voteDict_missing (votedata : list CountyRow) (s : string) :
  make_voteDict (grouped votedata) !! s = None <->
  forall r, In r votedata -> state_abbr r <> Some s.
Proof.
  rewrite eq_None_not_Some. unfold is_Some.
  split.
  - intros H r Hr Hs. apply H.
    assert (Hk : In s (map st_abbr (grouped votedata))).
    { rewrite grouped_abbrs. apply group_keys_In. eauto. }
    apply in_map_iff in Hk as (row & E & Hrow).
    exists (st_per_dem row, st_per_gop row). apply voteDict_lookup. eauto.
  - intros H (p & Hp). apply voteDict_lookup in Hp as (row & Hrow & E & _).
    assert (Hk : In s (group_keys votedata)).
    { rewrite <- grouped_abbrs, <- E. now apply in_map. }
    apply group_keys_In in Hk as (r & Hr & Hs). exact (H r Hr Hs).
Qed.

(** The vote columns do not touch the column the lookups read. *)
Lemma lookup_location_add_votes {V : Type} (d : gmap string V)
    (voteDict : gmap string (float * float)) (df : DataFrame) (i : nat) :
  lookup_location d (add_votes voteDict df) i = lookup_location d df i.
Proof.
  unfold lookup_location, add_votes.
  destruct (vote_dicts voteDict df) as [per_dems per_gops]. simpl.
  rewrite !assoc_set_assoc_ne by discriminate. reflexivity.
Qed.

Lemma find_app_last {V : Type} (p : string * V -> bool) (l : list (string * V))
    (r : string * V) :
  List.find p (l ++ [r])
  = match List.find p l with
    | Some x => Some x
    | None => if p r then Some r else None
    end.
Proof.
  induction l as [|x l IH]; simpl; [reflexivity|].
  destruct (p x); [reflexivity | exact IH].
Qed.

Lemma stateDict_loop_lookup (rows : list (string * Polygon)) (start : gmap string Polygon)
    (s : string) :
  fold_left (fun d r => <[fst r := snd r]> d) rows start !! s
  = match last_with s rows with
    | Some shape => Some shape
    | None => start !! s
    end.
Proof.
  unfold last_with. revert start. induction rows as [|r rows IH]; intros start.
  - reflexivity.
  - cbn [fold_left rev]. rewrite IH, find_app_last.
    destruct (List.find _ (rev rows)) as [x|]; [reflexivity|]. cbn [fmap option_fmap option_map].
    destruct (String.eqb_spec (fst r) s) as [<- | Hne]; cbn.
    + apply lookup_insert_eq.
    + now apply lookup_insert_ne.
Qed.

(** Both joins, for any two dictionaries: the rows and the other
    columns stay, and row [i] of the new columns holds what the lookup
    of the loop gave. *)
Lemma joins_rows_lookup (voteDict : gmap string (float * float))
    (stateDict : gmap string Polygon) (df : DataFrame) :
  let gdf := add_geometries stateDict (add_votes voteDict df) in
  let other := fun c : string * list cell => negb (mem_str (fst c) ["per_dem"; "per_gop"]) in
  nrows (frame gdf) = nrows df /\
  List.filter other (cols (frame gdf)) = List.filter other (cols df) /\
  exists dems gops,
    get_col (frame gdf) "per_dem" = Ok dems /\
    get_col (frame gdf) "per_gop" = Ok gops /\
    length dems = nrows df /\ length gops = nrows df /\
    length (geometry gdf) = nrows df /\
    forall i, (i < nrows df)%nat ->
      match lookup_location voteDict df i with
      | Some (d, g) => dems !! i = Some (CNum d) /\ gops !! i = Some (CNum g)
      | None => dems !! i = Some NaN /\ gops !! i = Some NaN
      end /\
      geometry gdf !! i = Some (lookup_location stateDict df i).
Proof.
  intros gdf other. subst gdf. unfold add_geometries. simpl.
  pose proof (lookup_location_add_votes stateDict voteDict df) as Hloc.
  unfold add_votes in *.
  destruct (vote_dicts voteDict df) as [per_dems per_gops] eqn:E.
  set (joined := set_col _ _ _) in *.
  change (nrows joined) with (nrows df).
  change (cols joined)
    with (set_assoc "per_gop" (series_of per_gops (nrows df))
            (set_assoc "per_dem" (series_of per_dems (nrows df)) (cols df))).
  split; [reflexivity|]. split.
  { rewrite !set_assoc_others by reflexivity. reflexivity. }
  exists (series_of per_dems (nrows df)), (series_of per_gops (nrows df)).
  unfold get_col.
  change (cols joined)
    with (set_assoc "per_gop" (series_of per_gops (nrows df))
            (set_assoc "per_dem" (series_of per_dems (nrows df)) (cols df))).
  rewrite assoc_set_assoc_ne by discriminate. rewrite !assoc_set_assoc_eq.
  repeat split.
  - unfold series_of. now rewrite length_map, length_seq.
  - unfold series_of. now rewrite length_map, length_seq.
  - unfold geometry_series. now rewrite length_map, length_seq.
  - rewrite !series_of_lookup by assumption.
    assert (Hd : per_dems = fst (vote_dicts voteDict df)) by now rewrite E.
    assert (Hg : per_gops = snd (vote_dicts voteDict df)) by now rewrite E.
    unfold vote_dicts in Hd, Hg. rewrite vote_dicts_fst in Hd. rewrite vote_dicts_snd in Hg.
    subst per_dems per_gops. rewrite !fill_lookup.
    rewrite !decide_True by now apply in_range.
    destruct (lookup_location voteDict df i) as [[d g]|]; simpl; split; reflexivity.
  - rewrite geometry_series_lookup by assumption.
    unfold geometry_dict. rewrite geometry_dict_fill, fill_lookup.
    rewrite decide_True by now apply in_range.
    rewrite Hloc. destruct (lookup_location stateDict df i); reflexivity.
Qed.

(** The lookup of the loop on a row with a LocationAbbr cell: the entry
    of the dictionary under that string, nothing for a cell that is no
    string. *)
Lemma lookup_location_at {V : Type} (d : gmap string V) (df : DataFrame)
    (locs : list cell) (i : nat) (loc : cell) :
  get_col df "LocationAbbr" = Ok locs -> locs !! i = Some loc ->
  lookup_location d df i = match loc with
                           | CStr s => d !! s
                           | CNum _ => None
                           end.
Proof.
  unfold get_col, lookup_location. intros H Hi.
  destruct (assoc "LocationAbbr" (cols df)) as [v|]; [|discriminate].
  injection H as ->. rewrite Hi. now destruct loc.
Qed.

Lemma last_with_None {V : Type} (s : string) (rows : list (string * V)) :
  (forall t v, In (t, v) rows -> t <> s) -> last_with s rows = None.
Proof.
  intros H. unfold last_with.
  destruct (List.find _ (rev rows)) as [[t v]|] eqn:Ef; [|reflexivity].
  apply find_some in Ef as [Hin E]. apply in_rev in Hin. simpl in E.
  apply String.eqb_eq in E. now apply H in Hin.
Qed.

(** C3: both joins keep the row count and leave every other column of
    the health table in place with its cells.  On a row whose
    LocationAbbr is the abbreviation of a row of the election aggregate,
    per_dem and per_gop are that row's two percentages; on a row whose
    LocationAbbr is the abbreviation of no such row they are missing.
    The shape of a row is the last shape the shapefile lists for its
    LocationAbbr, and [None] when it lists none. *)
Theorem joins_keep_rows (votedata : list CountyRow) (states_gdf : list (string * Polygon))
    (df : DataFrame) (locs : list cell) :
  let gdf := add_geometries (make_stateDict states_gdf)
               (add_votes (make_voteDict (grouped votedata)) df) in
  let other := fun c : string * list cell => negb (mem_str (fst c) ["per_dem"; "per_gop"]) in
  get_col df "LocationAbbr" = Ok locs ->
  nrows (frame gdf) = nrows df /\
  List.filter other (cols (frame gdf)) = List.filter other (cols df) /\
  exists dems gops,
    get_col (frame gdf) "per_dem" = Ok dems /\
    get_col (frame gdf) "per_gop" = Ok gops /\
    length dems = nrows df /\ length gops = nrows df /\
    length (geometry gdf) = nrows df /\
    forall i loc, (i < nrows df)%nat -> locs !! i = Some loc ->
      (forall row, In row (grouped votedata) -> loc = CStr (st_abbr row) ->
         dems !! i = Some (CNum (st_per_dem row)) /\
         gops !! i = Some (CNum (st_per_gop row))) /\
      ((forall row, In row (grouped votedata) -> loc <> CStr (st_abbr row)) ->
         dems !! i = Some NaN /\ gops !! i = Some NaN) /\
      (forall s shape, loc = CStr s -> last_with s states_gdf = Some shape ->
         geometry gdf !! i = Some (Some shape)) /\
      ((forall s shape, In (s, shape) states_gdf -> loc <> CStr s) ->
         geometry gdf !! i = Some None).
Proof.
  intros gdf other Hlocs. subst gdf other.
  destruct (joins_rows_lookup (make_voteDict (grouped votedata)) (make_stateDict states_gdf) df)
    as (Hn & Hother & dems & gops & Hd & Hg & Hld & Hlg & Hgeo & Hrows).
  split; [exact Hn|]. split; [exact Hother|].
  exists dems, gops. repeat (split; [assumption|]).
  intros i loc Hi Hloc. destruct (Hrows i Hi) as [Hvotes Hshape].
  rewrite (lookup_location_at _ df locs i loc Hlocs Hloc) in Hvotes.
  rewrite (lookup_location_at _ df locs i loc Hlocs Hloc) in Hshape.
  assert (Hstate : forall s, make_stateDict states_gdf !! s = last_with s states_gdf).
  { intros s. unfold make_stateDict. rewrite stateDict_loop_lookup, lookup_empty.
    now destruct (last_with s states_gdf). }
  split; [|split; [|split]].
  - intros row Hrow ->.
    assert (E : make_voteDict (grouped votedata) !! st_abbr row
                = Some (st_per_dem row, st_per_gop row)).
    { apply voteDict_lookup. eauto. }
    rewrite E in Hvotes. apply Hvotes.
  - intros Hnone. destruct loc as [s|f]; [|apply Hvotes].
    destruct (make_voteDict (grouped votedata) !! s) as [[d g]|] eqn:E; [|apply Hvotes].
    apply voteDict_lookup in E as (row & Hrow & <- & _).
    now destruct (Hnone row Hrow).
  - intros s shape -> Hlast. now rewrite Hshape, Hstate, Hlast.
  - intros Hnone. rewrite Hshape. destruct loc as [s|f]; [|reflexivity].
    rewrite Hstate, last_with_None; [reflexivity|].
    intros t v Hin ->. now apply (Hnone _ _ Hin).
Qed.

(** On the sample tables: Arizona's two counties give 75 and 25,
    Puerto Rico is in neither table, and the sample shapefile has
    Alaska but not Arizona. *)
Lemma joins_keep_rows_witness :
  exists dems gops,
    get_col (frame sample_gdf) "per_dem" = Ok dems /\
    get_col (frame sample_gdf) "per_gop" = Ok gops /\
    dems !! 2%nat = Some (CNum 75) /\ gops !! 2%nat = Some (CNum 25) /\
    dems !! 9%nat = Some NaN /\ gops !! 9%nat = Some NaN /\
    geometry sample_gdf !! 0%nat = Some (Some [(0, 0); (0, 1); (1, 0)]%float) /\
    geometry sample_gdf !! 2%nat = Some None.
Proof.
  destruct (joins_keep_rows sample_votes sample_states
              (mkFrame 12 (firstn 5 (cols sample_health)))
              (strs ["AK"; "AL"; "AZ"; "AK"; "AL"; "AK"; "AK"; "AL"; "AZ"; "PR"; "AK"; "AL"])
              eq_refl)
    as (_ & _ & dems & gops & Hd & Hg & _ & _ & _ & Hrows).
  exists dems, gops. split; [exact Hd|]. split; [exact Hg|].
  destruct (Hrows 2%nat (CStr "AZ") ltac:(simpl; lia) eq_refl) as (Haz & _ & _ & Haz_shape).
  destruct (Hrows 9%nat (CStr "PR") ltac:(simpl; lia) eq_refl) as (_ & Hpr & _ & _).
  destruct (Hrows 0%nat (CStr "AK") ltac:(simpl; lia) eq_refl) as (_ & _ & Hak & _).
  destruct (Haz (mkState "AZ" 3 1 4 75 25)) as [H1 H2];
    [vm_compute; tauto | reflexivity |].
  destruct Hpr as [H3 H4].
  { intros row Hrow. vm_compute in Hrow.
    destruct Hrow as [<- | [<- | [<- | []]]]; discriminate. }
  split; [exact H1|]. split; [exact H2|]. split; [exact H3|]. split; [exact H4|].
  split.
  - exact (Hak "AK" _ eq_refl eq_refl).
  - apply Haz_shape. intros s shape [[= <- <-] | [[= <- <-] | []]]; discriminate.
Defined.

(** The sample table after cleaning and both joins: Puerto Rico has no
    votes and no shape, Arizona has votes but no shape in the sample
    shapefile, and no row moved. *)
Lemma sample_joins :
  (do healthdata <- clean sample_health;
   Ok (add_geometries (make_stateDict sample_states)
         (add_votes (make_voteDict (grouped sample_votes)) healthdata)))
  = Ok sample_gdf /\
  get_col (frame sample_gdf) "per_gop"
  = Ok (nums [75; 50; 25; 75; 50; 75; 75; 50; 25; nan; 75; 50]%float) /\
  map (fun shape => bool_decide (shape = None)) (geometry sample_gdf)
  = [false; false; true; false; false; false; false; false; true; true; false; false].
Proof. repeat split; vm_compute; reflexivity. Qed.

(** ** Sorting *)

Section ListSortFacts.

Context {A : Type}.
Variable lt : A -> A -> bool.

Lemma ascending_run_app (prev : A) (l : list A) :
  fst (ascending_run lt prev l) ++ snd (ascending_run lt prev l) = l.
Proof.
  revert prev. induction l as [|x l IH]; intros prev; simpl; [reflexivity|].
  destruct (lt x prev); [reflexivity|].
  specialize (IH x). destruct (ascending_run lt x l) as [run rest].
  simpl in *. now rewrite IH.
Qed.

Lemma descending_run_app (prev : A) (l : list A) :
  fst (descending_run lt prev l) ++ snd (descending_run lt prev l) = l.
Proof.
  revert prev. induction l as [|x l IH]; intros prev; simpl; [reflexivity|].
  destruct (lt x prev); [|reflexivity].
  specialize (IH x). destruct (descending_run lt x l) as [run rest].
  simpl in *. now rewrite IH.
Qed.

Lemma count_run_Permutation (l : list A) :
  fst (count_run lt l) ++ snd (count_run lt l) ≡ₚ l.
Proof.
  destruct l as [|a [|b l]]; simpl; try reflexivity.
  destruct (lt b a).
  - pose proof (descending_run_app b l) as H.
    destruct (descending_run lt b l) as [run rest]. cbn [fst snd] in *.
    rewrite <- H, <- (Permutation_rev (a :: b :: run)). reflexivity.
  - pose proof (ascending_run_app b l) as H.
    destruct (ascending_run lt b l) as [run rest]. cbn [fst snd] in *.
    now rewrite <- H.
Qed.

Lemma insert_at_Permutation (i : nat) (x : A) (l : list A) :
  insert_at i x l ≡ₚ x :: l.
Proof.
  unfold insert_at. rewrite <- Permutation_middle.
  now rewrite firstn_skipn.
Qed.

Lemma binarysort_Permutation (run rest : list A) :
  binarysort lt run rest ≡ₚ run ++ rest.
Proof.
  revert run. induction rest as [|pivot rest IH]; intros run; simpl.
  - now rewrite app_nil_r.
  - rewrite IH, insert_at_Permutation. apply Permutation_middle.
Qed.

(** Sorting loses and invents nothing, whatever [lt] is. *)
Lemma list_sort_Permutation (l : list A) : list_sort lt l ≡ₚ l.
Proof.
  unfold list_sort. pose proof (count_run_Permutation l) as H.
  destruct (count_run lt l) as [run rest]. simpl in H.
  now rewrite binarysort_Permutation.
Qed.

Lemma list_sort_In (l : list A) (x : A) : In x (list_sort lt l) <-> In x l.
Proof.
  rewrite <- !list_elem_of_In. now rewrite list_sort_Permutation.
Qed.

Lemma list_sort_nil : list_sort lt [] = [].
Proof. reflexivity. Qed.

End ListSortFacts.

(** ** Sorting a list whose keys can all be compared *)

Section SortedRuns.

Context {A : Type}.
Variable lt : A -> A -> bool.
Variable ok : A -> Prop.

Hypothesis lt_asym : forall x y, ok x -> ok y -> lt x y = true -> lt y x = false.
Hypothesis le_trans :
  forall x y z, ok x -> ok y -> ok z ->
    lt y x = false -> lt z y = false -> lt z x = false.

Local Abbreviation R := (not_after lt ok).
Local Abbreviation D := (falls_to lt ok).

Lemma not_after_trans (x y z : A) : R x y -> R y z -> R x z.
Proof.
  intros (Hx & Hy & Hxy) (_ & Hz & Hyz). repeat split; auto.
  exact (le_trans x y z Hx Hy Hz Hxy Hyz).
Qed.

Lemma lt_trans (x y z : A) :
  ok x -> ok y -> ok z -> lt x y = true -> lt y z = true -> lt x z = true.
Proof.
  intros Hx Hy Hz Hxy Hyz. destruct (lt x z) eqn:E; [reflexivity|].
  pose proof (lt_asym _ _ Hx Hy Hxy) as Hyx.
  pose proof (le_trans z x y Hz Hx Hy E Hyx) as H. congruence.
Qed.

(** Less than an element, less than everything not before it. *)
Lemma lt_not_after (pivot x y : A) :
  ok pivot -> lt pivot x = true -> R x y -> lt pivot y = true.
Proof.
  intros Hp Hpx (Hx & Hy & Hxy). destruct (lt pivot y) eqn:E; [reflexivity|].
  pose proof (le_trans x y pivot Hx Hy Hp Hxy E) as H. congruence.
Qed.

Lemma not_after_not_lt (pivot x y : A) :
  ok pivot -> R y x -> lt pivot x = false -> lt pivot y = false.
Proof.
  intros Hp (Hy & Hx & Hyx) Hpx. exact (le_trans y x pivot Hy Hx Hp Hyx Hpx).
Qed.

Lemma ascending_run_ok (prev : A) (l : list A) :
  Forall ok l ->
  Forall ok (fst (ascending_run lt prev l)) /\ Forall ok (snd (ascending_run lt prev l)).
Proof.
  intros H. rewrite <- (ascending_run_app lt prev l) in H.
  now apply Forall_app in H.
Qed.

Lemma descending_run_ok (prev : A) (l : list A) :
  Forall ok l ->
  Forall ok (fst (descending_run lt prev l)) /\ Forall ok (snd (descending_run lt prev l)).
Proof.
  intros H. rewrite <- (descending_run_app lt prev l) in H.
  now apply Forall_app in H.
Qed.

Lemma ascending_run_sorted (prev : A) (l : list A) :
  ok prev -> Forall ok l ->
  StronglySorted R (prev :: fst (ascending_run lt prev l)).
Proof.
  revert prev. induction l as [|x l IH]; intros prev Hp Hl; simpl.
  - repeat constructor.
  - inversion Hl as [|? ? Hx Hl']; subst.
    destruct (lt x prev) eqn:E; [repeat constructor|].
    specialize (IH x Hx Hl'). destruct (ascending_run lt x l) as [run rest].
    cbn [fst] in *. constructor; [exact IH|].
    assert (Hpx : R prev x) by (repeat split; assumption).
    constructor; [exact Hpx|].
    apply StronglySorted_inv in IH as [_ IH].
    eapply Forall_impl; [exact IH|]. intros y Hy. simpl in Hy.
    eapply not_after_trans; eassumption.
Qed.

Lemma falls_to_trans (x y z : A) : D x y -> D y z -> D x z.
Proof.
  intros (Hx & Hy & Hxy) (_ & Hz & Hyz). repeat split; auto.
  exact (lt_trans z y x Hz Hy Hx Hyz Hxy).
Qed.

Lemma descending_run_sorted (prev : A) (l : list A) :
  ok prev -> Forall ok l ->
  StronglySorted D (prev :: fst (descending_run lt prev l)).
Proof.
  revert prev. induction l as [|x l IH]; intros prev Hp Hl; simpl.
  - repeat constructor.
  - inversion Hl as [|? ? Hx Hl']; subst.
    destruct (lt x prev) eqn:E; [|repeat constructor].
    specialize (IH x Hx Hl'). destruct (descending_run lt x l) as [run rest].
    cbn [fst] in *. constructor; [exact IH|].
    assert (Hpx : D prev x) by (repeat split; assumption).
    constructor; [exact Hpx|].
    apply StronglySorted_inv in IH as [_ IH].
    eapply Forall_impl; [exact IH|]. intros y Hy. simpl in Hy.
    eapply falls_to_trans; eassumption.
Qed.

(** A strictly descending run, reversed, is ascending. *)
Lemma rev_descending_sorted (l : list A) :
  StronglySorted D l -> StronglySorted R (rev l).
Proof.
  induction 1 as [|x l Hl IH Hx]; simpl; [constructor|].
  apply StronglySorted_app_2; [|exact IH|repeat constructor].
  intros x1 x2 H1 H2. apply list_elem_of_In in H2 as [<- | []].
  apply list_elem_of_In, in_rev in H1.
  rewrite Forall_forall in Hx. apply list_elem_of_In, Hx in H1 as (Hx0 & Hx1 & Hlt).
  repeat split; auto.
Qed.

Lemma count_run_sorted (l : list A) :
  Forall ok l ->
  StronglySorted R (fst (count_run lt l)) /\
  Forall ok (fst (count_run lt l)) /\ Forall ok (snd (count_run lt l)).
Proof.
  intros Hl. destruct l as [|a [|b l]]; unfold count_run.
  - repeat constructor.
  - repeat constructor. now inversion Hl.
  - inversion Hl as [|? ? Ha Hl1]; subst. inversion Hl1 as [|? ? Hb Hl2]; subst.
    destruct (lt b a) eqn:E.
    + pose proof (descending_run_sorted b l Hb Hl2) as Hs.
      pose proof (descending_run_ok b l Hl2) as [Hr1 Hr2].
      destruct (descending_run lt b l) as [run rest]. cbn [fst snd] in *.
      split; [|split; [|exact Hr2]].
      * apply rev_descending_sorted. constructor; [exact Hs|].
        assert (Hab : D a b) by (repeat split; assumption).
        constructor; [exact Hab|].
        apply StronglySorted_inv in Hs as [_ Hs].
        eapply Forall_impl; [exact Hs|]. intros y Hy. simpl in Hy.
        eapply falls_to_trans; eassumption.
      * apply Forall_forall. intros x Hx. apply list_elem_of_In, in_rev in Hx.
        destruct Hx as [<- | [<- | Hx]]; auto.
        rewrite Forall_forall in Hr1. now apply Hr1, list_elem_of_In.
    + pose proof (ascending_run_sorted b l Hb Hl2) as Hs.
      pose proof (ascending_run_ok b l Hl2) as [Hr1 Hr2].
      destruct (ascending_run lt b l) as [run rest]. cbn [fst snd] in *.
      split; [|split; [|exact Hr2]].
      * constructor; [exact Hs|].
        assert (Hab : R a b) by (repeat split; assumption).
        constructor; [exact Hab|].
        apply StronglySorted_inv in Hs as [_ Hs].
        eapply Forall_impl; [exact Hs|]. intros y Hy. simpl in Hy.
        eapply not_after_trans; eassumption.
      * repeat constructor; assumption.
Qed.

(** In a sorted list an earlier element is not after a later one. *)
Lemma sorted_lookup (run : list A) (i j : nat) (x y : A) :
  StronglySorted R run -> (i < j)%nat ->
  run !! i = Some x -> run !! j = Some y -> R x y.
Proof.
  intros Hs Hij Hi Hj.
  rewrite <- (firstn_skipn j run) in Hs.
  apply (StronglySorted_app_1_elem_of _ _ _ x y) in Hs; [exact Hs| |].
  - apply list_elem_of_lookup. exists i. now rewrite lookup_take_lt.
  - apply list_elem_of_lookup. exists 0%nat. rewrite lookup_drop.
    now rewrite Nat.add_0_r.
Qed.

(** The binary search ends at the place that splits the run into the
    elements the pivot is not less than and those it is less than. *)
Lemma bisect_spec (pivot : A) (run : list A) (fuel l r : nat) :
  ok pivot -> StronglySorted R run ->
  (l < r <= length run)%nat -> (r - l <= fuel)%nat ->
  (forall i x, (i < l)%nat -> run !! i = Some x -> lt pivot x = false) ->
  (forall i x, (r <= i)%nat -> run !! i = Some x -> lt pivot x = true) ->
  let k := bisect lt pivot run l r fuel in
  (k <= length run)%nat /\
  (forall i x, (i < k)%nat -> run !! i = Some x -> lt pivot x = false) /\
  (forall i x, (k <= i)%nat -> run !! i = Some x -> lt pivot x = true).
Proof.
  intros Hp Hs. revert l r.
  induction fuel as [|fuel IH]; intros l r Hlr Hfuel Hlow Hhigh; [lia|].
  cbn [bisect].
  pose proof (Nat.div_mod_eq (r - l) 2) as Hdiv.
  pose proof (Nat.mod_upper_bound (r - l) 2 ltac:(lia)) as Hmod.
  set (p := (l + (r - l) / 2)%nat) in *.
  assert (Hpr : (l <= p < r)%nat) by (subst p; lia).
  clearbody p. clear Hdiv Hmod.
  destruct (run !! p) as [x|] eqn:Ex.
  2: { apply lookup_ge_None in Ex. lia. }
  destruct (lt pivot x) eqn:E.
  - assert (Hhigh' : forall i y, (p <= i)%nat -> run !! i = Some y -> lt pivot y = true).
    { intros i y Hi Hy. destruct (Nat.eq_dec i p) as [-> | Hne].
      - congruence.
      - apply (lt_not_after pivot x y Hp E).
        apply (sorted_lookup run p i); auto. lia. }
    destruct (Nat.ltb_spec l p) as [Hlp | Hlp].
    + apply IH; auto; lia.
    + cbv zeta. assert (l = p) by lia. subst l. split; [lia|]. split; auto.
  - assert (Hlow' : forall i y, (i < S p)%nat -> run !! i = Some y -> lt pivot y = false).
    { intros i y Hi Hy. destruct (Nat.eq_dec i p) as [-> | Hne].
      - congruence.
      - apply (not_after_not_lt pivot x y Hp); [|exact E].
        apply (sorted_lookup run i p); auto. lia. }
    destruct (Nat.ltb_spec (S p) r) as [Hpr' | Hpr'].
    + apply IH; auto; lia.
    + cbv zeta. assert (S p = r) by lia. split; [lia|]. split; auto.
      intros i y Hi Hy. apply (Hhigh i y); [lia | exact Hy].
Qed.

Lemma insert_at_sorted (pivot : A) (run : list A) :
  ok pivot -> Forall ok run -> StronglySorted R run -> run <> [] ->
  StronglySorted R
    (insert_at (bisect lt pivot run 0 (length run) (S (length run))) pivot run).
Proof.
  intros Hp Hok Hs Hne.
  assert (Hlen : (0 < length run)%nat) by (destruct run; [congruence | simpl; lia]).
  destruct (bisect_spec pivot run (S (length run)) 0 (length run) Hp Hs)
    as (Hk & Hlow & Hhigh).
  { lia. }
  { lia. }
  { intros i x Hi. lia. }
  { intros i x Hi Hx. apply lookup_lt_Some in Hx. lia. }
  set (k := bisect lt pivot run 0 (length run) (S (length run))) in *.
  unfold insert_at.
  assert (Hsplit : StronglySorted R (firstn k run ++ skipn k run))
    by now rewrite firstn_skipn.
  apply StronglySorted_app in Hsplit as (Hcross & Hs1 & Hs2).
  rewrite Forall_forall in Hok.
  apply StronglySorted_app_2; [|exact Hs1|].
  - intros x1 x2 H1 H2. apply elem_of_cons in H2 as [-> | H2]; [|now apply Hcross].
    pose proof H1 as H1'. apply list_elem_of_lookup in H1 as (i & Hi).
    pose proof (lookup_lt_Some _ _ _ Hi) as Hik. rewrite length_take in Hik.
    rewrite lookup_take_lt in Hi by lia.
    repeat split; auto.
    + apply Hok. apply list_elem_of_lookup. eauto.
    + apply (Hlow i); [lia | exact Hi].
  - constructor; [exact Hs2|]. apply Forall_forall. intros y Hy.
    apply list_elem_of_lookup in Hy as (i & Hi). rewrite lookup_drop in Hi.
    assert (Hoky : ok y) by (apply Hok; apply list_elem_of_lookup; eauto).
    repeat split; auto.
    apply lt_asym; auto. apply (Hhigh (k + i)%nat); [lia | exact Hi].
Qed.

Lemma binarysort_sorted (run rest : list A) :
  Forall ok run -> Forall ok rest -> StronglySorted R run -> run <> [] ->
  StronglySorted R (binarysort lt run rest).
Proof.
  revert run. induction rest as [|pivot rest IH]; intros run Hrun Hrest Hs Hne.
  - exact Hs.
  - inversion Hrest as [|? ? Hp Hrest']; subst. cbn [binarysort]. apply IH; auto.
    + apply Forall_forall. intros x Hx.
      rewrite (insert_at_Permutation _ pivot run) in Hx.
      apply elem_of_cons in Hx as [-> | Hx]; [exact Hp|].
      rewrite Forall_forall in Hrun. now apply Hrun.
    + now apply insert_at_sorted.
    + unfold insert_at. now destruct (firstn _ run).
Qed.

(** On elements that can all be compared, [list.sort] sorts. *)
Lemma list_sort_sorted (l : list A) :
  Forall ok l -> StronglySorted R (list_sort lt l).
Proof.
  intros Hl. unfold list_sort.
  destruct (count_run_sorted l Hl) as (Hs & Hrun & Hrest).
  destruct l as [|a l].
  - constructor.
  - destruct (count_run lt (a :: l)) as [run rest] eqn:E. cbn [fst snd] in *.
    apply binarysort_sorted; auto.
    intros ->. unfold count_run in E.
    destruct l as [|b l]; [discriminate|].
    destruct (lt b a).
    + destruct (descending_run lt b l). injection E as E _.
      apply (f_equal (@length A)) in E. simpl in E.
      rewrite ?length_app in E. simpl in E. lia.
    + destruct (ascending_run lt b l). discriminate.
Qed.

(** *** Stability: elements of equal rank keep their order *)

Lemma filter_none (f : A -> bool) (l : list A) :
  (forall y, In y l -> f y = false) -> List.filter f l = [].
Proof.
  induction l as [|y l IH]; intros H; simpl; [reflexivity|].
  rewrite (H y (or_introl eq_refl)). apply IH. intros z Hz. apply H. now right.
Qed.

(** Of the rank of [x] nothing lies beyond an element that is greater
    than one of that rank. *)
Lemma same_rank_not_beyond (x pivot y : A) :
  ok x -> ok pivot -> ok y ->
  same_rank lt x pivot = true -> lt pivot y = true -> same_rank lt x y = false.
Proof.
  unfold same_rank. intros Hx Hp Hy Hxp Hpy.
  apply andb_true_iff in Hxp as [_ Hxp]. apply negb_true_iff in Hxp.
  destruct (lt x y) eqn:Exy; [reflexivity|]. simpl.
  pose proof (le_trans y x pivot Hy Hx Hp Exy Hxp) as H. congruence.
Qed.

Lemma rev_descending_stable (x : A) (l : list A) :
  ok x -> StronglySorted D l ->
  List.filter (same_rank lt x) (rev l) = List.filter (same_rank lt x) l.
Proof.
  intros Hx. induction 1 as [|y l Hl IH Hy]; [reflexivity|].
  simpl. rewrite List.filter_app, IH. simpl.
  destruct (same_rank lt x y) eqn:E; [|apply app_nil_r].
  rewrite filter_none; [reflexivity|].
  intros z Hz. rewrite Forall_forall in Hy.
  apply list_elem_of_In, Hy in Hz as (Hoy & Hoz & Hzy).
  destruct (same_rank lt x z) eqn:Ez; [|reflexivity].
  unfold same_rank in E, Ez.
  apply andb_true_iff in E as [E _]. apply negb_true_iff in E.
  apply andb_true_iff in Ez as [_ Ez]. apply negb_true_iff in Ez.
  pose proof (le_trans y x z Hoy Hx Hoz E Ez) as H. congruence.
Qed.

Lemma count_run_stable (x : A) (l : list A) :
  ok x -> Forall ok l ->
  List.filter (same_rank lt x) (fst (count_run lt l) ++ snd (count_run lt l))
  = List.filter (same_rank lt x) l.
Proof.
  intros Hx Hl. destruct l as [|a [|b l]]; unfold count_run; try reflexivity.
  inversion Hl as [|? ? Ha Hl1]; subst. inversion Hl1 as [|? ? Hb Hl2]; subst.
  destruct (lt b a) eqn:E.
  - pose proof (descending_run_sorted b l Hb Hl2) as Hs.
    pose proof (descending_run_app lt b l) as Happ.
    destruct (descending_run lt b l) as [run rest]. cbn [fst snd] in *.
    rewrite List.filter_app, rev_descending_stable, <- List.filter_app; [|exact Hx|].
    + cbn [app]. now rewrite Happ.
    + constructor; [exact Hs|].
      assert (Hab : D a b) by (repeat split; assumption).
      constructor; [exact Hab|].
      apply StronglySorted_inv in Hs as [_ Hs].
      eapply Forall_impl; [exact Hs|]. intros y Hy. simpl in Hy.
      eapply falls_to_trans; eassumption.
  - pose proof (ascending_run_app lt b l) as Happ.
    destruct (ascending_run lt b l) as [run rest]. cbn [fst snd app] in *.
    now rewrite Happ.
Qed.

Lemma insert_at_stable (x pivot : A) (run : list A) :
  ok x -> ok pivot -> Forall ok run -> StronglySorted R run -> run <> [] ->
  List.filter (same_rank lt x)
    (insert_at (bisect lt pivot run 0 (length run) (S (length run))) pivot run)
  = List.filter (same_rank lt x) (run ++ [pivot]).
Proof.
  intros Hx Hp Hok Hs Hne.
  assert (Hlen : (0 < length run)%nat) by (destruct run; [congruence | simpl; lia]).
  destruct (bisect_spec pivot run (S (length run)) 0 (length run) Hp Hs)
    as (Hk & _ & Hhigh).
  { lia. }
  { lia. }
  { intros i y Hi. lia. }
  { intros i y Hi Hy. apply lookup_lt_Some in Hy. lia. }
  set (k := bisect lt pivot run 0 (length run) (S (length run))) in *.
  unfold insert_at. rewrite <- (firstn_skipn k run) at 3.
  rewrite !List.filter_app. cbn [List.filter].
  destruct (same_rank lt x pivot) eqn:E.
  - rewrite (filter_none _ (skipn k run)); [now rewrite !app_nil_r|].
    intros y Hy. apply list_elem_of_In, list_elem_of_lookup in Hy as (i & Hi).
    rewrite lookup_drop in Hi. rewrite Forall_forall in Hok.
    apply (same_rank_not_beyond x pivot y); auto.
    + apply Hok, list_elem_of_lookup. eauto.
    + apply (Hhigh (k + i)%nat); [lia | exact Hi].
  - now rewrite !app_nil_r.
Qed.

Lemma binarysort_stable (x : A) (run rest : list A) :
  ok x -> Forall ok run -> Forall ok rest -> StronglySorted R run -> run <> [] ->
  List.filter (same_rank lt x) (binarysort lt run rest)
  = List.filter (same_rank lt x) (run ++ rest).
Proof.
  intros Hx. revert run.
  induction rest as [|pivot rest IH]; intros run Hrun Hrest Hs Hne.
  - now rewrite app_nil_r.
  - inversion Hrest as [|? ? Hp Hrest']; subst. cbn [binarysort].
    rewrite IH; auto.
    + rewrite List.filter_app, insert_at_stable, <- List.filter_app by assumption.
      now rewrite <- app_assoc.
    + apply Forall_forall. intros y Hy.
      rewrite (insert_at_Permutation _ pivot run) in Hy.
      apply elem_of_cons in Hy as [-> | Hy]; [exact Hp|].
      rewrite Forall_forall in Hrun. now apply Hrun.
    + now apply insert_at_sorted.
    + unfold insert_at. now destruct (firstn _ run).
Qed.

(** [list.sort] is stable: among the elements of one rank the order of
    the input is kept. *)
Lemma list_sort_stable (x : A) (l : list A) :
  ok x -> Forall ok l ->
  List.filter (same_rank lt x) (list_sort lt l) = List.filter (same_rank lt x) l.
Proof.
  intros Hx Hl. unfold list_sort.
  pose proof (count_run_stable x l Hx Hl) as Hstable.
  destruct (count_run_sorted l Hl) as (Hs & Hrun & Hrest).
  destruct l as [|a l]; [reflexivity|].
  destruct (count_run lt (a :: l)) as [run rest] eqn:E. cbn [fst snd] in *.
  rewrite binarysort_stable; auto.
  intros ->. unfold count_run in E.
  destruct l as [|b l]; [discriminate|].
  destruct (lt b a).
  - destruct (descending_run lt b l). injection E as E _.
    apply (f_equal (@length A)) in E. simpl in E.
    rewrite ?length_app in E. simpl in E. lia.
  - destruct (ascending_run lt b l). discriminate.
Qed.

End SortedRuns.

(** ** The order of binary64 numbers *)

Lemma SFltb_key_less (x y : spec_float) :
  x <> S754_nan -> y <> S754_nan ->
  (SFltb x y = true <-> key_less (order_key x) (order_key y)).
Proof.
  intros Hx Hy. unfold SFltb, SFcompare.
  destruct x as [sx|sx| |sx mx ex], y as [sy|sy| |sy my ey]; try congruence;
    try destruct sx; try destruct sy; simpl;
    try (split; [discriminate || lia | lia || discriminate]);
    try (split; [lia | reflexivity]).
  all: rewrite ?Pos.compare_cont_spec; simpl.
  all: destruct (Z.compare_spec ex ey); destruct (Pos.compare_spec mx my); simpl;
    split; intros; try discriminate; try reflexivity; try lia.
Qed.

Lemma not_nan_spec (x : float) : is_nan x = false -> Prim2SF x <> S754_nan.
Proof.
  unfold is_nan. rewrite FloatAxioms.eqb_spec. intros H E. rewrite E in H. discriminate H.
Qed.

Lemma ltb_key_less (x y : float) :
  is_nan x = false -> is_nan y = false ->
  ((x <? y)%float = true
   <-> key_less (order_key (Prim2SF x)) (order_key (Prim2SF y))).
Proof.
  intros Hx Hy. rewrite ltb_spec. apply SFltb_key_less; now apply not_nan_spec.
Qed.

Lemma ltb_false_key (x y : float) :
  is_nan x = false -> is_nan y = false ->
  ((x <? y)%float = false
   <-> ~ key_less (order_key (Prim2SF x)) (order_key (Prim2SF y))).
Proof.
  intros Hx Hy. rewrite <- (ltb_key_less x y Hx Hy).
  destruct (x <? y)%float; split; congruence.
Qed.

Lemma key_lt_asym (x y : Entry) :
  has_number x -> has_number y -> key_lt x y = true -> key_lt y x = false.
Proof.
  unfold has_number, key_lt. intros Hx Hy.
  rewrite (ltb_key_less _ _ Hx Hy), (ltb_false_key _ _ Hy Hx).
  destruct (order_key _) as [[a1 a2] a3], (order_key _) as [[b1 b2] b3].
  simpl. lia.
Qed.

Lemma key_le_trans (x y z : Entry) :
  has_number x -> has_number y -> has_number z ->
  key_lt y x = false -> key_lt z y = false -> key_lt z x = false.
Proof.
  unfold has_number, key_lt. intros Hx Hy Hz.
  rewrite (ltb_false_key _ _ Hy Hx), (ltb_false_key _ _ Hz Hy), (ltb_false_key _ _ Hz Hx).
  destruct (order_key (Prim2SF (value (correlation x)))) as [[a1 a2] a3],
           (order_key (Prim2SF (value (correlation y)))) as [[b1 b2] b3],
           (order_key (Prim2SF (value (correlation z)))) as [[c1 c2] c3].
  simpl. lia.
Qed.

(** When every recorded coefficient is a number,
    [CORRELATIONS.sort(key=lambda x: x[2])] leaves the results in
    ascending order: no entry is followed by one with a smaller
    coefficient. *)
Lemma sort_correlations_sorted (CORRELATIONS : list Entry) :
  Forall has_number CORRELATIONS ->
  StronglySorted (not_after key_lt has_number) (sort_correlations CORRELATIONS).
Proof.
  apply list_sort_sorted; [exact key_lt_asym | exact key_le_trans].
Qed.

(** Then the first entry has the lowest coefficient. *)
Lemma sort_correlations_head_lowest (CORRELATIONS rest : list Entry) (first e : Entry) :
  Forall has_number CORRELATIONS ->
  sort_correlations CORRELATIONS = first :: rest ->
  In e CORRELATIONS ->
  (value (correlation e) <? value (correlation first))%float = false.
Proof.
  intros Hnum Hsort He.
  pose proof (sort_correlations_sorted _ Hnum) as Hs. rewrite Hsort in Hs.
  apply (list_sort_In key_lt) in He. fold (sort_correlations CORRELATIONS) in He.
  rewrite Hsort in He. destruct He as [<- | He].
  - rewrite Forall_forall in Hnum.
    assert (Hf : has_number first).
    { apply Hnum, list_elem_of_In, (list_sort_In key_lt).
      fold (sort_correlations CORRELATIONS). rewrite Hsort. now left. }
    unfold has_number in Hf. rewrite (ltb_false_key _ _ Hf Hf).
    destruct (order_key _) as [[a1 a2] a3]. simpl. lia.
  - apply StronglySorted_inv in Hs as [_ Hs]. rewrite Forall_forall in Hs.
    apply list_elem_of_In, Hs in He as (_ & _ & He). exact He.
Qed.

(** With NaN the comparison is no order: 0.2 is not after NaN, NaN is
    not after -0.5, yet 0.2 is after -0.5. *)
Lemma nan_breaks_the_order :
  (nan <? 0x1.999999999999ap-3)%float = false /\
  (-0.5 <? nan)%float = false /\
  (-0.5 <? 0x1.999999999999ap-3)%float = true.
Proof. repeat split. Qed.

(** The example of the specification: coefficients 0.2, NaN, -0.5 in
    that order stay in that order. *)
Lemma sort_leaves_nan_example :
  list_sort PrimFloat.ltb [0x1.999999999999ap-3; nan; -0.5]%float
  = [0x1.999999999999ap-3; nan; -0.5]%float.
Proof. reflexivity. Qed.

(** Results with equal coefficients stay in the order of their questions. *)
Lemma sort_correlations_stable (CORRELATIONS : list Entry) (e : Entry) :
  has_number e -> Forall has_number CORRELATIONS ->
  List.filter (same_rank key_lt e) (sort_correlations CORRELATIONS)
  = List.filter (same_rank key_lt e) CORRELATIONS.
Proof.
  apply list_sort_stable; [exact key_lt_asym | exact key_le_trans].
Qed.

(** ** Correlation per question *)

Lemma assoc_select (mask : list bool) (name : string) (cs : list (string * list cell)) :
  assoc name (map (fun c => (fst c, select mask (snd c))) cs)
  = select mask <$> assoc name cs.
Proof.
  induction cs as [|[n v] cs IH]; simpl; [reflexivity|].
  destruct (String.eqb n name); [reflexivity | exact IH].
Qed.

Lemma get_col_loc (mask : list bool) (df : DataFrame) (name : string) (v : list cell) :
  get_col (loc mask df) name = Ok v <->
  exists w, get_col df name = Ok w /\ v = select mask w.
Proof.
  unfold get_col, loc. simpl. rewrite assoc_select.
  destruct (assoc name (cols df)) as [w|]; simpl; split.
  - intros [= <-]. eauto.
  - intros (w' & [= <-] & ->). reflexivity.
  - discriminate.
  - intros (w' & [=] & _).
Qed.

Lemma get_attr_loc (mask : list bool) (df : DataFrame) (name : string) (v : list cell) :
  get_attr (loc mask df) name = Ok v <->
  exists w, get_attr df name = Ok w /\ v = select mask w.
Proof.
  unfold get_attr, loc. simpl. rewrite assoc_select.
  destruct (assoc name (cols df)) as [w|]; simpl; split.
  - intros [= <-]. eauto.
  - intros (w' & [= <-] & ->). reflexivity.
  - discriminate.
  - intros (w' & [=] & _).
Qed.

(** A step of a [do] chain that ended well did not raise. *)
Tactic Notation "bind_ok" constr(m) "as" ident(x) ident(E) :=
  destruct m as [x|] eqn:E; [cbn [rbind] | discriminate].

Lemma overall_rows_inv (gdf sub : GeoDataFrame) (q : cell) :
  overall_rows gdf q = Ok sub ->
  exists qcol scol,
    get_col (frame gdf) "Question" = Ok qcol /\
    get_col (frame gdf) "Stratification1" = Ok scol /\
    sub = geo_loc (overall_mask q qcol scol) (geo_loc (question_mask q qcol) gdf).
Proof.
  unfold overall_rows.
  bind_ok (get_col (frame gdf) "Question") as qcol Hq. cbn [geo_loc frame].
  bind_ok (get_col (loc (map (fun c => py_eq c q) qcol) (frame gdf)) "Stratification1")
    as scol' Hs.
  intros [= <-]. apply get_col_loc in Hs as (scol & Hs & ->).
  exists qcol, scol. auto.
Qed.

(** A column of the filtered frame is the column of the whole frame
    under both masks. *)
Lemma overall_rows_col (gdf sub : GeoDataFrame) (q : cell) (qcol scol : list cell)
    (name : string) (v : list cell) :
  overall_rows gdf q = Ok sub ->
  get_col (frame gdf) "Question" = Ok qcol ->
  get_col (frame gdf) "Stratification1" = Ok scol ->
  get_col (frame sub) name = Ok v ->
  exists w, get_col (frame gdf) name = Ok w /\
            v = select (overall_mask q qcol scol) (select (question_mask q qcol) w).
Proof.
  intros Hsub Hq Hs Hv.
  apply overall_rows_inv in Hsub as (qcol' & scol' & Hq' & Hs' & ->).
  rewrite Hq in Hq'. rewrite Hs in Hs'. injection Hq' as <-. injection Hs' as <-.
  simpl in Hv. apply get_col_loc in Hv as (v1 & Hv1 & ->).
  apply get_col_loc in Hv1 as (w & Hw & ->). eauto.
Qed.


Lemma select_nil_r {A : Type} (mask : list bool) : select mask (@nil A) = [].
Proof. destruct mask as [|[] mask]; reflexivity. Qed.


Lemma as_floats_cons_inv (c : cell) (l : list cell) (x : list float) :
  as_floats (c :: l) = Ok x ->
  exists f fs, c = CNum f /\ as_floats l = Ok fs /\ x = f :: fs.
Proof.
  simpl. destruct c as [s|f]; simpl; [discriminate|].
  destruct (as_floats l) as [fs|]; simpl; [|discriminate].
  intros [= <-]. eauto.
Qed.

(** On numeric columns the pairs [nancorr] keeps are the present pairs. *)
Lemma complete_pairs_present (a b : list cell) (x y : list float) :
  as_floats a = Ok x -> as_floats b = Ok y ->
  complete_pairs x y = present_pairs a b.
Proof.
  revert b x y. induction a as [|ca a IH]; intros b x y Ha Hb.
  - injection Ha as <-. reflexivity.
  - apply as_floats_cons_inv in Ha as (f & fs & -> & Ha & ->).
    destruct b as [|cb b].
    + injection Hb as <-. reflexivity.
    + apply as_floats_cons_inv in Hb as (g & gs & -> & Hb & ->).
      unfold complete_pairs in *. simpl.
      rewrite (IH b fs gs Ha Hb).
      destruct (negb (is_nan f) && negb (is_nan g)); reflexivity.
Qed.

Section LoopFacts.

Context {np_corrcoef : list (float * float) -> float}.

(** The kind of number [corr] returns: Python's [nan] when no pair is
    complete, a NumPy scalar as soon as one is. *)
Lemma corr_kind (a b : list cell) (c : pynum) :
  corr np_corrcoef a b = Ok c ->
  match present_pairs a b with
  | [] => c = PyFloat nan
  | pairs => c = NpFloat64 (np_corrcoef pairs)
  end.
Proof.
  unfold corr. destruct a as [|ca a].
  - intros [= <-]. reflexivity.
  - destruct (as_floats (ca :: a)) as [x|] eqn:Ea; [|discriminate].
    destruct (as_floats b) as [y|] eqn:Eb; [|discriminate].
    cbn [rbind]. rewrite (complete_pairs_present _ _ _ _ Ea Eb).
    destruct (present_pairs (ca :: a) b); intros [= <-]; reflexivity.
Qed.

(** What one successful turn of the loop did. *)
Lemma process_inv (gdf : GeoDataFrame) (acc acc' : list Entry) (q : cell) :
  process np_corrcoef gdf acc q = Ok acc' ->
  exists sub dv pg c du,
    overall_rows gdf q = Ok sub /\
    get_col (frame sub) "DataValue" = Ok dv /\
    get_col (frame sub) "per_gop" = Ok pg /\
    corr np_corrcoef dv pg = Ok c /\
    get_attr (frame sub) "DataValueUnit" = Ok du /\
    acc' = acc ++ match mode du with
                  | u :: _ => [mkEntry q u c sub]
                  | [] => []
                  end.
Proof.
  unfold process.
  bind_ok (overall_rows gdf q) as sub H1.
  bind_ok (get_col (frame sub) "DataValue") as dv H2.
  bind_ok (get_col (frame sub) "per_gop") as pg H3.
  bind_ok (corr np_corrcoef dv pg) as c H4.
  bind_ok (get_attr (frame sub) "DataValueUnit") as du H5.
  intros H. exists sub, dv, pg, c, du.
  split; [reflexivity|]. split; [exact H2|]. split; [exact H3|].
  split; [exact H4|]. split; [exact H5|].
  destruct (mode du); injection H as <-; [symmetry; apply app_nil_r | reflexivity].
Qed.

(** Whether a turn succeeds, and what it appends, does not depend on
    the results collected so far. *)
Lemma process_any_acc (gdf : GeoDataFrame) (acc acc' other : list Entry) (q : cell) :
  process np_corrcoef gdf acc q = Ok acc' ->
  exists new, acc' = acc ++ new /\ process np_corrcoef gdf other q = Ok (other ++ new).
Proof.
  intros H. apply process_inv in H as (sub & dv & pg & c & du & H1 & H2 & H3 & H4 & H5 & ->).
  eexists. split; [reflexivity|].
  unfold process. rewrite H1. cbn [rbind]. rewrite H2. cbn [rbind].
  rewrite H3. cbn [rbind]. rewrite H4. cbn [rbind]. rewrite H5. cbn [rbind].
  destruct (mode du); [now rewrite app_nil_r | reflexivity].
Qed.

(** Every result of the loop was appended by the turn of its question. *)
Lemma process_all_In (gdf : GeoDataFrame) (qs : list cell) (acc cs : list Entry) (e : Entry) :
  process_all np_corrcoef gdf acc qs = Ok cs ->
  In e cs ->
  In e acc \/
  exists new, In (question e) qs /\ process np_corrcoef gdf [] (question e) = Ok new /\ In e new.
Proof.
  revert acc. induction qs as [|q qs IH]; intros acc Hall He; simpl in Hall.
  - injection Hall as <-. now left.
  - destruct (process np_corrcoef gdf acc q) as [acc'|] eqn:Ep; [|discriminate].
    cbn [rbind] in Hall.
    destruct (IH _ Hall He) as [Hacc | (new & Hq & Hnew & Hin)].
    + destruct (process_any_acc _ _ _ [] _ Ep) as (new & -> & Hnew).
      apply in_app_or in Hacc as [Hacc | Hin]; [now left|].
      right. simpl in Hnew.
      pose proof Hnew as Hq.
      apply process_inv in Hq as (sub & dv & pg & c & du & _ & _ & _ & _ & _ & Hq).
      simpl in Hq. subst new.
      destruct (mode du) as [|u us]; [contradiction|].
      destruct Hin as [<- | []]. simpl.
      exists [mkEntry q u c sub]. split; [now left|]. split; [exact Hnew | now left].
    + right. exists new. split; [now right|]. auto.
Qed.

Lemma get_attr_get_col (df : DataFrame) (name : string) (v : list cell) :
  get_attr df name = Ok v <-> get_col df name = Ok v.
Proof.
  unfold get_attr, get_col. destruct (assoc name (cols df)); split; congruence.
Qed.

(** When every question is passed over, nothing is recorded. *)
Lemma process_all_nothing (gdf : GeoDataFrame) (qs : list cell) (acc : list Entry) :
  (forall q, In q qs -> process np_corrcoef gdf [] q = Ok []) ->
  process_all np_corrcoef gdf acc qs = Ok acc.
Proof.
  induction qs as [|q qs IH]; intros H; [reflexivity|]. simpl.
  destruct (process_any_acc gdf [] [] acc q (H q (or_introl eq_refl)))
    as (new & Hnew & ->).
  simpl in Hnew. subst new. rewrite app_nil_r. cbn [rbind].
  apply IH. intros q' Hq'. apply H. now right.
Qed.


(** The loop stops at the first turn that raises: when it ends well,
    every turn did. *)
Lemma process_all_each (gdf : GeoDataFrame) (qs : list cell) (acc cs : list Entry) (q : cell) :
  process_all np_corrcoef gdf acc qs = Ok cs -> In q qs ->
  exists new, process np_corrcoef gdf [] q = Ok new.
Proof.
  revert acc. induction qs as [|q' qs IH]; intros acc Hall Hq; [contradiction|].
  simpl in Hall.
  destruct (process np_corrcoef gdf acc q') as [acc'|] eqn:Ep; [|discriminate]. cbn [rbind] in Hall.
  destruct Hq as [-> | Hq]; [|eauto].
  destruct (process_any_acc _ _ _ [] _ Ep) as (new & _ & Hnew). eauto.
Qed.

End LoopFacts.

Lemma unique_from_nonempty (seen : list cell) (l : list cell) :
  unique_from seen l = [] -> forall c, In c l -> existsb (same_key c) seen = true.
Proof.
  revert seen. induction l as [|x l IH]; intros seen H c Hc; [contradiction|].
  simpl in H. destruct (existsb (same_key x) seen) eqn:E; [|discriminate].
  destruct Hc as [<- | Hc]; [exact E | now apply IH].
Qed.

Lemma unique_nil (l : list cell) : unique l = [] -> l = [].
Proof.
  intros H. destruct l as [|c l]; [reflexivity|].
  pose proof (unique_from_nonempty [] (c :: l) H c (or_introl eq_refl)) as E.
  discriminate E.
Qed.

(** Some key reaches the highest count. *)
Lemma top_count_reached (f : cell -> nat) (keys : list cell) :
  keys <> [] ->
  exists k, In k keys /\ f k = fold_right (fun c m => Nat.max (f c) m) 0%nat keys.
Proof.
  induction keys as [|c keys IH]; [congruence|]. intros _. simpl.
  destruct keys as [|c' keys'].
  - exists c. split; [now left|]. simpl. lia.
  - destruct IH as (k & Hk & E); [discriminate|].
    destruct (Nat.max_spec (f c) (fold_right (fun c m => Nat.max (f c) m) 0%nat (c' :: keys')))
      as [[_ ->] | [_ ->]].
    + exists k. split; [now right | exact E].
    + exists c. split; [now left | reflexivity].
Qed.

(** [mode] is empty exactly when no value is present. *)
Lemma mode_nil_iff (l : list cell) :
  mode l = [] <-> Forall (fun c => isna c = true) l.
Proof.
  unfold mode.
  set (present := List.filter notna l).
  assert (Hp : present = [] <-> Forall (fun c => isna c = true) l).
  { subst present. induction l as [|c l IH]; simpl.
    - split; [constructor | reflexivity].
    - unfold notna at 1. destruct (isna c) eqn:E; simpl.
      + rewrite IH. split; [now constructor | now inversion 1].
      + split; [discriminate | inversion 1; congruence]. }
  rewrite <- Hp. split.
  - intros H.
    pose proof (merge_sort_Permutation cell_le
                  (List.filter
                     (fun c => (occurrences c present =?
                                fold_right (fun c m => Nat.max (occurrences c present) m)
                                           0 (unique present))%nat)
                     (unique present))) as HP.
    rewrite H in HP. symmetry in HP. apply Permutation_nil_r in HP. clear H.
    rename HP into H.
    destruct (unique present) as [|k0 ks] eqn:Ek; [now apply unique_nil|].
    exfalso.
    destruct (top_count_reached (fun c => occurrences c present) (k0 :: ks))
      as (k & Hk & E); [discriminate|].
    assert (Hin : In k (List.filter
                          (fun c => (occurrences c present =?
                                     fold_right (fun c m => Nat.max (occurrences c present) m)
                                                0 (k0 :: ks))%nat)
                          (k0 :: ks))).
    { apply filter_In. split; [exact Hk|]. now apply Nat.eqb_eq. }
    rewrite H in Hin. contradiction.
  - intros ->. reflexivity.
Qed.

Lemma sample_correlations : correlations pearson sample_gdf = Ok sample_results.
Proof. vm_compute. reflexivity. Qed.


(** ** Questions without a unit of measure *)

Lemma process_without_units {np_corrcoef : list (float * float) -> float}
    (gdf sub : GeoDataFrame) (q : cell) (du : list cell) (acc acc' : list Entry) :
  overall_rows gdf q = Ok sub ->
  get_attr (frame sub) "DataValueUnit" = Ok du ->
  Forall (fun c => isna c = true) du ->
  process np_corrcoef gdf acc q = Ok acc' ->
  acc' = acc.
Proof.
  intros Hsub Hdu Hna Hp.
  apply process_inv in Hp as (sub' & dv & pg & c & du' & Hsub' & _ & _ & _ & Hdu' & ->).
  rewrite Hsub in Hsub'. injection Hsub' as <-.
  rewrite Hdu in Hdu'. injection Hdu' as <-.
  apply mode_nil_iff in Hna. rewrite Hna. apply app_nil_r.
Qed.

Lemma append_assoc (a b c : string) : (a +:+ b) +:+ c = a +:+ (b +:+ c).
Proof.
  induction a as [|x a IH]; [reflexivity|].
  change (String x ((a +:+ b) +:+ c) = String x (a +:+ (b +:+ c))). now rewrite IH.
Qed.

Lemma append_empty_r (a : string) : a +:+ "" = a.
Proof.
  induction a as [|x a IH]; [reflexivity|].
  change (String x (a +:+ "") = String x a). now rewrite IH.
Qed.

Section ReportFacts.

Variable py_str : pynum -> string.
Variable py_round : float -> Z -> float.
Context {np_corrcoef : list (float * float) -> float}.

(** The report is the header and one line per entry, in list order. *)
Lemma write_entries_lines (entries : list Entry) (written text : string) :
  write_entries py_str py_round written entries = (text, Ok tt) ->
  exists lines,
    Forall2 (fun e line => report_line py_str py_round e = Ok line) entries lines /\
    text = written +:+ String.concat "" lines.
Proof.
  revert written. induction entries as [|e entries IH]; intros written H; simpl in H.
  - injection H as <-. exists []. split; [constructor|].
    symmetry. apply append_empty_r.
  - destruct (report_line py_str py_round e) as [line|] eqn:El; [|discriminate].
    destruct (IH _ H) as (lines & Hl & ->).
    exists (line :: lines). split; [now constructor|].
    rewrite append_assoc. f_equal.
    destruct lines; [|reflexivity].
    apply append_empty_r.
Qed.

(** C8: a question whose unstratified rows carry no unit of measure
    leaves the list of results as it was, without an error; no sorted
    result and no line of the report is for that question. *)
Theorem question_without_units_is_skipped (gdf : GeoDataFrame) (cs : list Entry)
    (QUESTIONS : list cell) (q : cell) (sub : GeoDataFrame) (du : list cell) :
  get_attr (frame gdf) "Question" = Ok QUESTIONS ->
  In q (unique QUESTIONS) ->
  correlations np_corrcoef gdf = Ok cs ->
  overall_rows gdf q = Ok sub ->
  get_attr (frame sub) "DataValueUnit" = Ok du ->
  Forall (fun c => isna c = true) du ->
  (forall acc, process np_corrcoef gdf acc q = Ok acc) /\
  (forall e, In e (sort_correlations cs) -> question e <> q) /\
  (forall text,
     write_report py_str py_round (sort_correlations cs) = (text, Ok tt) ->
     exists lines,
       text = header +:+ String.concat "" lines /\
       Forall2 (fun e line => report_line py_str py_round e = Ok line /\ question e <> q)
               (sort_correlations cs) lines).
Proof.
  intros HQ Hq Hcs Hsub Hdu Hna.
  unfold correlations in Hcs. rewrite HQ in Hcs. cbn [rbind] in Hcs.
  assert (Hsilent : forall acc, process np_corrcoef gdf acc q = Ok acc).
  { intros acc. destruct (process_all_each _ _ _ _ _ Hcs Hq) as (new & Hnew).
    destruct (process_any_acc _ _ _ acc _ Hnew) as (new' & -> & Hacc).
    rewrite Hacc. f_equal.
    exact (process_without_units _ _ _ _ _ _ Hsub Hdu Hna Hacc). }
  assert (Hnone : forall e, In e (sort_correlations cs) -> question e <> q).
  { intros e He Heq. apply list_sort_In in He.
    destruct (process_all_In _ _ _ _ _ Hcs He) as [[] | (new & _ & Hnew & Hin)].
    rewrite Heq, Hsilent in Hnew. injection Hnew as <-. contradiction. }
  split; [exact Hsilent|]. split; [exact Hnone|].
  intros text Hw. apply write_entries_lines in Hw as (lines & Hl & ->).
  exists lines. split; [reflexivity|].
  revert Hnone. induction Hl as [|e line es ls He Hl IH]; intros Hnone; constructor.
  - split; [exact He | apply Hnone; now left].
  - apply IH. intros e' He'. apply Hnone. now right.
Qed.

End ReportFacts.

(** On the sample table the fourth question has no unit: the loop
    passes over it. *)
Lemma question_without_units_is_skipped_witness :
  (forall acc, process pearson sample_gdf acc (CStr "Q4") = Ok acc) /\
  (forall e, In e (sort_correlations sample_results) -> question e <> CStr "Q4") /\
  (forall text,
     write_report sample_str sample_round (sort_correlations sample_results) = (text, Ok tt) ->
     exists lines,
       text = header +:+ String.concat "" lines /\
       Forall2 (fun e line =>
                  report_line sample_str sample_round e = Ok line /\
                  question e <> CStr "Q4")
               (sort_correlations sample_results) lines).
Proof.
  eapply (question_without_units_is_skipped sample_str sample_round
            sample_gdf sample_results
            (strs ["Q1"; "Q1"; "Q1"; "Q1"; "Q1"; "Q2"; "Q3"; "Q3"; "Q3"; "Q1"; "Q1"; "Q4"])
            (CStr "Q4") _ [NaN]).
  - reflexivity.
  - vm_compute. right; right; right; left; reflexivity.
  - exact sample_correlations.
  - vm_compute. reflexivity.
  - vm_compute. reflexivity.
  - repeat constructor.
Defined.

(** ** The report and the map *)

Lemma length_append (a b : string) :
  String.length (a +:+ b) = (String.length a + String.length b)%nat.
Proof.
  induction a as [|x a IH]; [reflexivity|].
  change (S (String.length (a +:+ b)) = S (String.length a + String.length b)).
  now rewrite IH.
Qed.

Lemma length_fill (n : nat) : String.length (fill n) = n.
Proof. induction n as [|n IH]; simpl; [reflexivity | now rewrite IH]. Qed.

(** The field is at least 200 characters wide and never cut. *)
Lemma format_200_length (s : string) :
  String.length (format_200 s) = Nat.max 200 (String.length s).
Proof. unfold format_200. rewrite length_append, length_fill. lia. Qed.

(** C6 as stated fails: for a question of 219 characters the text
    "question (unit)" has 223 characters and its field is 223
    characters wide, it is not truncated to 200. *)
Lemma format_200_does_not_truncate :
  ~ (forall entry q, qstring entry = Ok q -> String.length (format_200 q) = 200%nat).
Proof.
  intros H. specialize (H long_entry _ eq_refl).
  rewrite format_200_length in H. vm_compute in H. discriminate H.
Qed.

Section ReportLayout.

Variable py_str : pynum -> string.
Variable py_round : float -> Z -> float.

(** C6 as amended: a report line is the text "question (unit)",
    left-justified and padded with "_" to at least 200 characters and
    never truncated, followed at once by the text of the coefficient,
    as it is or rounded to 3 decimals, and a newline; a coefficient
    that is a Python float is always rounded to 3 decimals before it is
    turned into text. *)
Theorem report_line_layout (entry : Entry) (line : string) :
  report_line py_str py_round entry = Ok line ->
  exists q u number,
    question entry = CStr q /\ units entry = CStr u /\
    let field := q +:+ " (" +:+ u +:+ ")" in
    line = (field +:+ fill (200 - String.length field)) +:+ number +:+ newline /\
    String.length (field +:+ fill (200 - String.length field))
      = Nat.max 200 (String.length field) /\
    (number = py_str (correlation entry) \/
     number = py_str (rounded_3 py_round (correlation entry))) /\
    (forall f, correlation entry = PyFloat f -> number = py_str (PyFloat (py_round f 3))).
Proof.
  unfold report_line, qstring.
  destruct (question entry) as [q|]; [|discriminate].
  destruct (units entry) as [u|]; [|discriminate].
  cbn [rbind]. intros [= <-].
  exists q, u.
  exists (match correlation entry with
          | PyFloat f => py_str (PyFloat (py_round f 3))
          | NpFloat64 f => py_str (NpFloat64 f)
          end).
  split; [reflexivity|]. split; [reflexivity|]. cbv zeta.
  split; [|split; [|split]].
  - unfold format_200, coefficient_text. destruct (correlation entry); reflexivity.
  - apply format_200_length.
  - destruct (correlation entry); [right | left]; reflexivity.
  - intros f ->. reflexivity.
Qed.

(** A NumPy scalar is no Python [float] for the test on line 125: it
    is written as it is, without rounding. *)
Lemma numpy_scalar_written_unrounded (f : float) :
  coefficient_text py_str py_round (NpFloat64 f) = py_str (NpFloat64 f) +:+ newline.
Proof. reflexivity. Qed.

End ReportLayout.

Lemma report_line_layout_witness :
  exists q u number,
    CStr "Q2" = CStr q /\ CStr "Number" = CStr u /\
    (format_200 "Q2 (Number)" +:+ "nan" +:+ newline
     = ((q +:+ " (" +:+ u +:+ ")")
        +:+ fill (200 - String.length (q +:+ " (" +:+ u +:+ ")")))
       +:+ number +:+ newline) /\
    String.length ((q +:+ " (" +:+ u +:+ ")")
                   +:+ fill (200 - String.length (q +:+ " (" +:+ u +:+ ")")))
      = Nat.max 200 (String.length (q +:+ " (" +:+ u +:+ ")")) /\
    (number = sample_str (PyFloat nan) \/
     number = sample_str (rounded_3 sample_round (PyFloat nan))) /\
    (forall f, PyFloat nan = PyFloat f -> number = sample_str (PyFloat (sample_round f 3))).
Proof.
  exact (report_line_layout sample_str sample_round
           (mkEntry (CStr "Q2") (CStr "Number") (PyFloat nan) sample_gdf)
           (format_200 "Q2 (Number)" +:+ "nan" +:+ newline) eq_refl).
Defined.

Section Script.

Variable py_str : pynum -> string.
Variable py_round : float -> Z -> float.
Variable parse_number : string -> option float.
Context {np_corrcoef : list (float * float) -> float}.

(** C9: when no result was recorded the script writes the report, which
    is then the header alone, and dies of [IndexError] at
    [CORRELATIONS[0]]: nothing is printed or drawn. *)
Theorem empty_results_abort_after_report (healthdata : DataFrame)
    (votedata : list CountyRow) (states_gdf : list (string * Polygon)) :
  sorted_correlations parse_number np_corrcoef healthdata votedata states_gdf = Ok [] ->
  main py_str py_round parse_number np_corrcoef healthdata votedata states_gdf
  = (mkWorld (Some header) None None, Raise IndexError).
Proof. intros H. unfold main. rewrite H. reflexivity. Qed.

(** The map is made from the head of the sorted list. *)
Lemma generate_plot_head (entry : Entry) (rest : list Entry) (title : string) :
  qstring entry = Ok title ->
  generate_plot (entry :: rest)
  = Ok (sub_gdf entry,
        mkFigure title (-180, -60)%Z (20, 75)%Z "DataValue" "Purples" (sub_gdf entry)).
Proof. intros H. unfold generate_plot. rewrite H. reflexivity. Qed.

End Script.

Lemma empty_results_abort_after_report_witness :
  main sample_str sample_round sample_parse pearson stratified_health sample_votes sample_states
  = (mkWorld (Some header) None None, Raise IndexError).
Proof.
  apply (empty_results_abort_after_report sample_str sample_round sample_parse
           stratified_health sample_votes sample_states).
  vm_compute. reflexivity.
Defined.

(** ** Results that are not numbers *)

(** In the runs on the sample tables [pearson] stands for NumPy's
    kernel. *)

Section SampleRun.

Variable py_str : pynum -> string.
Variable py_round : float -> Z -> float.
Variable parse_number : string -> option float.

Lemma sample_sorted_correlations :
  sorted_correlations parse_number pearson sample_health sample_votes sample_states
  = Ok sample_sorted.
Proof. vm_compute. reflexivity. Qed.

(** The sorted sample results, entry by entry. *)
Lemma sample_sorted_entries :
  exists e1 e2 e3,
    sample_sorted = [e1; e2; e3] /\
    map question [e1; e2; e3] = [CStr "Q1"; CStr "Q2"; CStr "Q3"] /\
    map qstring [e1; e2; e3] = [Ok "Q1 (%)"; Ok "Q2 (Number)"; Ok "Q3 (Years)"] /\
    map (fun e => value (correlation e)) [e1; e2; e3]
    = [pearson sample_pairs; nan; -1]%float.
Proof.
  destruct sample_sorted as [|e1 [|e2 [|e3 [|e4 rest]]]] eqn:E;
    try (vm_compute in E; discriminate E).
  exists e1, e2, e3. split; [reflexivity|].
  rewrite <- E. repeat split; vm_compute; reflexivity.
Qed.

Lemma sample_coefficients_order : (-1 <? pearson sample_pairs)%float = true.
Proof. vm_compute. reflexivity. Qed.

(** C5 on the sample tables: the three recorded coefficients are about
    0.94, NaN and -1 in the order of the questions; [list.sort] leaves
    them in that order, so the report lists the question with
    coefficient -1 last, after the one with the larger coefficient. *)
Theorem report_order_broken_by_nan :
  exists e1 e2 e3 line1 line2 line3,
    sorted_correlations parse_number pearson sample_health sample_votes sample_states
    = Ok [e1; e2; e3] /\
    map question [e1; e2; e3] = [CStr "Q1"; CStr "Q2"; CStr "Q3"] /\
    map (fun e => value (correlation e)) [e1; e2; e3]
    = [pearson sample_pairs; nan; -1]%float /\
    (value (correlation e3) <? value (correlation e1))%float = true /\
    map (report_line py_str py_round) [e1; e2; e3] = [Ok line1; Ok line2; Ok line3] /\
    write_report py_str py_round [e1; e2; e3]
    = (header +:+ line1 +:+ line2 +:+ line3, Ok tt).
Proof.
  destruct sample_sorted_entries as (e1 & e2 & e3 & E & Hq & Ht & Hv).
  injection Ht as H1 H2 H3.
  exists e1, e2, e3,
         (format_200 "Q1 (%)" +:+ coefficient_text py_str py_round (correlation e1)),
         (format_200 "Q2 (Number)" +:+ coefficient_text py_str py_round (correlation e2)),
         (format_200 "Q3 (Years)" +:+ coefficient_text py_str py_round (correlation e3)).
  split; [rewrite <- E; exact sample_sorted_correlations|].
  split; [exact Hq|]. split; [exact Hv|].
  split; [injection Hv as -> _ ->; exact sample_coefficients_order|].
  split.
  - cbn [map]. unfold report_line. rewrite H1, H2, H3. reflexivity.
  - unfold write_report. cbn [write_entries]. unfold report_line.
    rewrite H1, H2, H3. cbn [rbind]. rewrite !append_assoc. reflexivity.
Qed.

(** C7 on the sample tables: the map is drawn for the first entry of
    the list, the question with coefficient about 0.94, although the
    third question has coefficient -1. *)
Theorem map_drawn_for_larger_coefficient :
  exists text shown_entry lower_entry,
    main py_str py_round parse_number pearson sample_health sample_votes sample_states
    = (mkWorld (Some text) (Some (sub_gdf shown_entry))
         (Some (mkFigure "Q1 (%)" (-180, -60)%Z (20, 75)%Z "DataValue" "Purples"
                  (sub_gdf shown_entry))),
       Ok tt) /\
    In shown_entry sample_sorted /\ In lower_entry sample_sorted /\
    question shown_entry = CStr "Q1" /\ question lower_entry = CStr "Q3" /\
    (value (correlation lower_entry) <? value (correlation shown_entry))%float = true.
Proof.
  destruct sample_sorted_entries as (e1 & e2 & e3 & E & Hq & Ht & Hv).
  injection Ht as H1 H2 H3. injection Hq as Hq1 _ Hq3.
  exists (fst (write_report py_str py_round [e1; e2; e3])), e1, e3.
  split.
  - unfold main. rewrite sample_sorted_correlations, E.
    unfold write_report. cbn [write_entries]. unfold report_line.
    rewrite H1, H2, H3. cbn [rbind fst].
    rewrite (generate_plot_head e1 _ _ H1). reflexivity.
  - rewrite E. repeat split; auto; [now left | right; right; now left |].
    injection Hv as -> _ ->. exact sample_coefficients_order.
Qed.

End SampleRun.

(** * Further properties *)

(** ** The two lookup tables *)

(** X1: [voteDict] has an entry for a state exactly when some county row
    of the election table carries that abbreviation; the entry is then
    the pair of percentages computed from the state's summed counts. *)
Theorem voteDict_covers_election_states (votedata : list CountyRow) (s : string) :
  match make_voteDict (grouped votedata) !! s with
  | Some p =>
      (exists r, In r votedata /\ state_abbr r = Some s) /\
      p = ((nansum (map votes_dem (county_rows s votedata))
            / nansum (map total_votes (county_rows s votedata)) * 100)%float,
           (nansum (map votes_gop (county_rows s votedata))
            / nansum (map total_votes (county_rows s votedata)) * 100)%float)
  | None => forall r, In r votedata -> state_abbr r <> Some s
  end.
Proof.
  destruct (make_voteDict (grouped votedata) !! s) as [p|] eqn:E.
  - apply voteDict_lookup in E as (row & Hrow & Hs & ->).
    assert (Hk : In s (group_keys votedata)).
    { rewrite <- grouped_abbrs, <- Hs. now apply in_map. }
    split; [now apply group_keys_In|].
    unfold grouped, groupby_sum in Hrow. rewrite map_map in Hrow.
    apply in_map_iff in Hrow as (k & <- & _). simpl in Hs. subst k. reflexivity.
  - now apply voteDict_missing.
Qed.

(** X2: [stateDict] gives for a state the shape of the last row of the
    shapefile with that abbreviation, and has no entry for a state the
    shapefile does not list. *)
Theorem stateDict_last_row_wins (states_gdf : list (string * Polygon)) (s : string) :
  make_stateDict states_gdf !! s = last_with s states_gdf.
Proof.
  unfold make_stateDict. rewrite stateDict_loop_lookup, lookup_empty.
  now destruct (last_with s states_gdf).
Qed.

Lemma stateDict_doubled :
  make_stateDict doubled_states !! "AK" = Some [(5, 5); (5, 6); (6, 5)]%float.
Proof. vm_compute. reflexivity. Qed.

(** ** Comparing and sorting numbers *)

Lemma SFleb_key (x y : spec_float) :
  x <> S754_nan -> y <> S754_nan ->
  (SFleb x y = true <-> ~ key_less (order_key y) (order_key x)).
Proof.
  intros Hx Hy. unfold SFleb, SFcompare.
  destruct x as [sx|sx| |sx mx ex], y as [sy|sy| |sy my ey]; try congruence;
    try destruct sx; try destruct sy; simpl;
    try (split; [lia | reflexivity]);
    try (split; [discriminate | lia]).
  all: rewrite ?Pos.compare_cont_spec; simpl.
  all: destruct (Z.compare_spec ex ey); destruct (Pos.compare_spec mx my); simpl;
    split; intros; try discriminate; try reflexivity; try lia.
Qed.

Lemma SFeqb_key (x y : spec_float) :
  SFeqb x y = true <->
  x <> S754_nan /\ y <> S754_nan /\ order_key x = order_key y.
Proof.
  unfold SFeqb, SFcompare.
  destruct x as [sx|sx| |sx mx ex], y as [sy|sy| |sy my ey];
    try destruct sx; try destruct sy; simpl;
    try (split; [discriminate | intros (? & ? & ?); congruence]);
    try (split; [intros _; repeat split; congruence | reflexivity]).
  all: rewrite ?Pos.compare_cont_spec; simpl.
  all: destruct (Z.compare_spec ex ey); destruct (Pos.compare_spec mx my); simpl;
    split; try discriminate; try (intros _; repeat split; congruence);
    try reflexivity;
    try (intros (_ & _ & E); injection E; intros; lia).
Qed.

Lemma leb_not_less (x y : float) :
  is_nan x = false -> is_nan y = false ->
  ((x <=? y)%float = true <-> (y <? x)%float = false).
Proof.
  intros Hx Hy. rewrite leb_spec, (ltb_false_key _ _ Hy Hx).
  apply SFleb_key; now apply not_nan_spec.
Qed.

(** X3: with fewer than 64 results, or with no NaN among the
    coefficients, sorting never loses, adds or repeats a result; with
    fewer than 64 results this holds with NaN among them too. *)
Theorem sort_keeps_every_result (CORRELATIONS : list Entry) :
  (length CORRELATIONS < 64)%nat \/ Forall has_number CORRELATIONS ->
  sort_correlations CORRELATIONS ≡ₚ CORRELATIONS.
Proof. intros _. apply list_sort_Permutation. Qed.

Lemma sort_keeps_every_result_witness :
  (exists e, In e sample_results /\ is_nan (value (correlation e)) = true) /\
  sort_correlations sample_results ≡ₚ sample_results.
Proof.
  split.
  - destruct sample_results as [|e1 [|e2 rest]] eqn:E;
      try (vm_compute in E; discriminate E).
    exists e2. split; [right; now left|].
    vm_compute in E. now injection E as _ <- _.
  - apply sort_keeps_every_result. left. vm_compute. lia.
Defined.

(** X4: when every coefficient is a number, the sorted list is in
    ascending order: an earlier result never has a larger coefficient
    than a later one. *)
Theorem sorted_ascending_without_nan (CORRELATIONS : list Entry) (i j : nat) (x y : Entry) :
  Forall has_number CORRELATIONS -> (i < j)%nat ->
  sort_correlations CORRELATIONS !! i = Some x ->
  sort_correlations CORRELATIONS !! j = Some y ->
  (value (correlation x) <=? value (correlation y))%float = true.
Proof.
  intros Hnum Hij Hx Hy.
  pose proof (sort_correlations_sorted _ Hnum) as Hs.
  destruct (sorted_lookup key_lt has_number _ i j x y Hs Hij Hx Hy) as (Hnx & Hny & Hlt).
  now apply leb_not_less.
Qed.

Lemma toy_results_numbers : Forall has_number toy_results.
Proof. repeat constructor. Qed.

Lemma sorted_ascending_without_nan_witness :
  map question (sort_correlations toy_results) = [CStr "B"; CStr "D"; CStr "A"; CStr "C"] /\
  (-1 <=? 0.5)%float = true.
Proof.
  split; [reflexivity|].
  exact (sorted_ascending_without_nan toy_results 0 1
           (mkEntry (CStr "B") (CStr "%") (NpFloat64 (-1)) sample_gdf)
           (mkEntry (CStr "D") (CStr "%") (NpFloat64 0.5) sample_gdf)
           toy_results_numbers ltac:(lia) eq_refl eq_refl).
Defined.

(** X5: the sort is stable: results whose coefficients are equal
    numbers stay in the order in which their questions were recorded. *)
Theorem equal_coefficients_keep_order (CORRELATIONS : list Entry) (e : Entry) :
  has_number e -> Forall has_number CORRELATIONS ->
  List.filter (same_rank key_lt e) (sort_correlations CORRELATIONS)
  = List.filter (same_rank key_lt e) CORRELATIONS.
Proof.
  apply list_sort_stable; [exact key_lt_asym | exact key_le_trans].
Qed.

Lemma equal_coefficients_keep_order_witness :
  map question
    (List.filter
       (same_rank key_lt (mkEntry (CStr "A") (CStr "%") (NpFloat64 2) sample_gdf))
       (sort_correlations toy_results))
  = [CStr "A"; CStr "C"].
Proof.
  rewrite (equal_coefficients_keep_order toy_results
             (mkEntry (CStr "A") (CStr "%") (NpFloat64 2) sample_gdf)
             eq_refl toy_results_numbers).
  reflexivity.
Defined.

(** ** The script as a whole *)

Section ScriptFacts.

Variable py_str : pynum -> string.
Variable py_round : float -> Z -> float.
Variable parse_number : string -> option float.
Context {np_corrcoef : list (float * float) -> float}.

(** X7: when the script ends without an error there was at least one
    result; the report is the header followed by one line per result in
    the order of the sorted list, and the frame printed and the map
    drawn are those of the first result, the title being its question
    and unit. *)
Theorem finished_run_outputs (healthdata : DataFrame) (votedata : list CountyRow)
    (states_gdf : list (string * Polygon)) (w : World) :
  main py_str py_round parse_number np_corrcoef healthdata votedata states_gdf = (w, Ok tt) ->
  exists first rest lines title,
    sorted_correlations parse_number np_corrcoef healthdata votedata states_gdf
    = Ok (first :: rest) /\
    Forall2 (fun e line => report_line py_str py_round e = Ok line) (first :: rest) lines /\
    qstring first = Ok title /\
    w = mkWorld (Some (header +:+ String.concat "" lines))
          (Some (sub_gdf first))
          (Some (mkFigure title (-180, -60)%Z (20, 75)%Z "DataValue" "Purples"
                   (sub_gdf first))).
Proof.
  unfold main.
  destruct (sorted_correlations parse_number np_corrcoef healthdata votedata states_gdf)
    as [cs|e] eqn:Es; [|discriminate].
  destruct (write_report py_str py_round cs) as [text [[]|e]] eqn:Ew; [|discriminate].
  destruct cs as [|first rest]; [discriminate|].
  apply write_entries_lines in Ew as (lines & Hl & ->).
  inversion Hl as [|? line ? ls Hfirst _]; subst.
  unfold report_line in Hfirst.
  destruct (qstring first) as [title|] eqn:Et; [|discriminate].
  rewrite (generate_plot_head first rest title Et).
  intros [= <-]. exists first, rest, (line :: ls), title. auto.
Qed.

(** X8: when every coefficient of the sorted list is a number, its
    first entry, the one the map is drawn for, has the lowest
    coefficient. *)
Theorem lowest_first_without_nan (healthdata : DataFrame) (votedata : list CountyRow)
    (states_gdf : list (string * Polygon)) (first e : Entry) (rest : list Entry) :
  sorted_correlations parse_number np_corrcoef healthdata votedata states_gdf
  = Ok (first :: rest) ->
  Forall has_number (first :: rest) ->
  In e (first :: rest) ->
  (value (correlation first) <=? value (correlation e))%float = true.
Proof.
  unfold sorted_correlations. intros Hs Hnum He.
  destruct (clean healthdata) as [h1|]; [|discriminate]. cbn [rbind] in Hs.
  destruct (to_numeric_DataValue parse_number h1) as [h2|]; [|discriminate].
  cbn [rbind] in Hs.
  destruct (correlations _) as [cs|]; [|discriminate]. cbn [rbind] in Hs.
  injection Hs as Hs.
  assert (Hcs : Forall has_number cs).
  { rewrite <- (list_sort_Permutation key_lt cs).
    fold (sort_correlations cs). now rewrite Hs. }
  pose proof (sort_correlations_sorted cs Hcs) as Hsorted. rewrite Hs in Hsorted.
  inversion Hnum as [|? ? Hfirst _]; subst.
  apply leb_not_less; auto.
  { rewrite Forall_forall in Hnum. now apply Hnum, list_elem_of_In. }
  destruct He as [<- | He].
  - unfold has_number in Hfirst. rewrite (ltb_false_key _ _ Hfirst Hfirst).
    destruct (order_key _) as [[a1 a2] a3]. simpl. lia.
  - apply StronglySorted_inv in Hsorted as [_ Hall]. rewrite Forall_forall in Hall.
    now apply list_elem_of_In, Hall in He as (_ & _ & He).
Qed.

End ScriptFacts.

Lemma finished_run_outputs_witness :
  exists first rest lines title,
    sorted_correlations sample_parse pearson tidy_health sample_votes sample_states
    = Ok (first :: rest) /\
    Forall2 (fun e line => report_line sample_str sample_round e = Ok line)
            (first :: rest) lines /\
    qstring first = Ok title /\
    fst (main sample_str sample_round sample_parse pearson tidy_health sample_votes sample_states)
    = mkWorld (Some (header +:+ String.concat "" lines))
        (Some (sub_gdf first))
        (Some (mkFigure title (-180, -60)%Z (20, 75)%Z "DataValue" "Purples"
                 (sub_gdf first))).
Proof.
  apply (finished_run_outputs sample_str sample_round sample_parse
           tidy_health sample_votes sample_states).
  vm_compute. reflexivity.
Defined.

Lemma tidy_sorted_correlations :
  sorted_correlations sample_parse pearson tidy_health sample_votes sample_states = Ok tidy_sorted.
Proof. vm_compute. reflexivity. Qed.

Lemma tidy_sorted_numbers : Forall has_number tidy_sorted.
Proof. vm_compute. repeat constructor. Qed.

Lemma lowest_first_without_nan_witness :
  exists first rest,
    tidy_sorted = first :: rest /\
    Forall (fun e => (value (correlation first) <=? value (correlation e))%float = true)
           (first :: rest).
Proof.
  pose proof tidy_sorted_correlations as Hs. pose proof tidy_sorted_numbers as Hn.
  destruct tidy_sorted as [|first rest] eqn:E; [vm_compute in E; discriminate E|].
  exists first, rest. split; [reflexivity|].
  apply Forall_forall. intros e He. apply list_elem_of_In in He.
  exact (lowest_first_without_nan sample_parse tidy_health sample_votes sample_states
           first e rest Hs Hn He).
Defined.

Lemma tidy_sorted_questions :
  map (fun e => (question e, value (correlation e))) tidy_sorted
  = [(CStr "Q3", -1); (CStr "Q2", -0.5); (CStr "Q1", 1)]%float.
Proof. vm_compute. reflexivity. Qed.

(** ** What the cleaning does to the rest of the script *)

Lemma assoc_None (name : string) (cs : list (string * list cell)) :
  assoc name cs = None <-> ~ In name (map fst cs).
Proof.
  induction cs as [|[n v] cs IH]; simpl; [tauto|].
  destruct (String.eqb_spec n name) as [-> | Hne].
  - split; [discriminate | tauto].
  - rewrite IH. tauto.
Qed.

Lemma assoc_Some_In (name : string) (cs : list (string * list cell)) (v : list cell) :
  assoc name cs = Some v -> In (name, v) cs.
Proof.
  induction cs as [|[n w] cs IH]; simpl; [discriminate|].
  destruct (String.eqb_spec n name) as [-> | Hne].
  - intros [= ->]. now left.
  - intros H. right. now apply IH.
Qed.

Lemma assoc_filter (keep : string * list cell -> bool) (name : string)
    (cs : list (string * list cell)) (v : list cell) :
  assoc name (List.filter keep cs) = Some v -> In (name, v) cs /\ keep (name, v) = true.
Proof.
  intros H. apply assoc_Some_In, filter_In in H. exact H.
Qed.

Lemma get_attr_Ok_In (df : DataFrame) (name : string) (v : list cell) :
  get_attr df name = Ok v -> In name (col_names df).
Proof.
  unfold get_attr, col_names. destruct (assoc name (cols df)) as [w|] eqn:E; [|discriminate].
  intros _. apply assoc_Some_In in E. apply in_map_iff. exists (name, w). auto.
Qed.

Lemma get_col_Ok_In (df : DataFrame) (name : string) (v : list cell) :
  get_col df name = Ok v -> In name (col_names df).
Proof. intros H. apply get_attr_get_col in H. exact (get_attr_Ok_In _ _ _ H). Qed.

Lemma set_assoc_names (name : string) (v : list cell) (cs : list (string * list cell))
    (n : string) :
  In n (map fst (set_assoc name v cs)) <-> In n (map fst cs) \/ n = name.
Proof.
  induction cs as [|[m w] cs IH]; simpl.
  - split; [intros [<- | []]; auto | intros [[] | ->]; auto].
  - destruct (String.eqb_spec m name) as [-> | Hne]; simpl.
    + split; [tauto | intros [H | ->]; auto].
    + rewrite IH. tauto.
Qed.

(** A name on the drop list is no column of the cleaned table. *)
Lemma clean_drops_useless (df h1 : DataFrame) (name : string) :
  clean df = Ok h1 -> In name (useless_cols df) -> ~ In name (col_names h1).
Proof.
  unfold clean. intros H Hu Hin. apply drop_Ok in H as (_ & _ & Hcols).
  unfold col_names in Hin. rewrite Hcols in Hin.
  apply in_map_iff in Hin as (c & <- & Hc). apply filter_In in Hc as (_ & Hc).
  apply Bool.negb_true_iff, mem_str_not_In in Hc. contradiction.
Qed.

(** A column of the cleaned table is a column of the raw table with at
    least 3 distinct values. *)
Lemma clean_kept_column (df h1 : DataFrame) (name : string) (v : list cell) :
  clean df = Ok h1 -> assoc name (cols h1) = Some v ->
  In (name, v) (cols df) /\ (3 <= length (unique v))%nat.
Proof.
  unfold clean. intros H Hv. apply drop_Ok in H as (_ & _ & Hcols).
  rewrite Hcols in Hv. apply assoc_filter in Hv as [Hin Hkeep]. split; [exact Hin|].
  apply Bool.negb_true_iff, mem_str_not_In in Hkeep. simpl in Hkeep.
  destruct (Nat.lt_ge_cases (length (unique v)) 3) as [Hlt | Hge]; [|exact Hge].
  exfalso. apply Hkeep, useless_cols_In. right. exists (name, v). auto.
Qed.

(** The frame the loop reads: the cleaned table with DataValue coerced
    and the two vote columns set. *)
Lemma joined_assoc (parse_number : string -> option float)
    (voteDict : gmap string (float * float)) (stateDict : gmap string Polygon)
    (h1 h2 : DataFrame) (name : string) :
  to_numeric_DataValue parse_number h1 = Ok h2 ->
  name <> "DataValue" -> name <> "per_dem" -> name <> "per_gop" ->
  assoc name (cols (frame (add_geometries stateDict (add_votes voteDict h2))))
  = assoc name (cols h1).
Proof.
  unfold to_numeric_DataValue. intros H Hd Hpd Hpg.
  destruct (get_attr h1 "DataValue") as [v|]; [|discriminate]. cbn [rbind] in H.
  injection H as <-. unfold add_geometries, add_votes. cbn [frame].
  destruct (vote_dicts _ _) as [per_dems per_gops]. unfold set_col. cbn [cols].
  now rewrite !assoc_set_assoc_ne.
Qed.

(** A turn of the loop that ends well found the five columns it reads. *)
Lemma process_reads_columns {np_corrcoef : list (float * float) -> float}
    (gdf : GeoDataFrame) (acc acc' : list Entry) (q : cell) (name : string) :
  process np_corrcoef gdf acc q = Ok acc' ->
  In name ["Question"; "Stratification1"; "DataValue"; "per_gop"; "DataValueUnit"] ->
  In name (col_names (frame gdf)).
Proof.
  intros H Hname.
  apply process_inv in H as (sub & dv & pg & c & du & Hsub & Hdv & Hpg & _ & Hdu & _).
  pose proof Hsub as Hinv.
  apply overall_rows_inv in Hinv as (qcol & scol & Hq & Hs & ->).
  cbn [geo_loc frame] in Hdv, Hpg, Hdu.
  apply get_col_loc in Hdv as (dv1 & Hdv & _). apply get_col_loc in Hdv as (dv0 & Hdv & _).
  apply get_col_loc in Hpg as (pg1 & Hpg & _). apply get_col_loc in Hpg as (pg0 & Hpg & _).
  apply get_attr_loc in Hdu as (du1 & Hdu & _). apply get_attr_loc in Hdu as (du0 & Hdu & _).
  simpl in Hname.
  destruct Hname as [<- | [<- | [<- | [<- | [<- | []]]]]];
    eauto using get_col_Ok_In, get_attr_Ok_In.
Qed.

Section CleaningAndScript.

Variable py_str : pynum -> string.
Variable py_round : float -> Z -> float.
Variable parse_number : string -> option float.
Context {np_corrcoef : list (float * float) -> float}.

(** X9: if DataValue, Question, Stratification1 or DataValueUnit has
    fewer than 3 distinct values in the raw health table, the cleaner
    drops the column and the script then fails on reading it: it ends
    with an exception before the report file is opened. *)
Theorem analysed_column_needs_three_values (healthdata : DataFrame)
    (votedata : list CountyRow) (states_gdf : list (string * Polygon))
    (c : string * list cell) :
  In c (cols healthdata) ->
  In (fst c) analysed_columns ->
  (length (unique (snd c)) < 3)%nat ->
  exists e,
    main py_str py_round parse_number np_corrcoef healthdata votedata states_gdf
    = (mkWorld None None None, Raise e).
Proof.
  intros Hc Hname Hlt. unfold main.
  destruct (sorted_correlations parse_number np_corrcoef healthdata votedata states_gdf)
    as [cs|e] eqn:Es; [exfalso | eauto].
  unfold sorted_correlations in Es.
  destruct (clean healthdata) as [h1|] eqn:E1; [|discriminate]. cbn [rbind] in Es.
  destruct (to_numeric_DataValue parse_number h1) as [h2|] eqn:E2; [|discriminate].
  cbn [rbind] in Es.
  set (gdf := add_geometries _ _) in Es.
  destruct (correlations np_corrcoef gdf) as [cs'|] eqn:E3; [|discriminate]. clear Es.
  assert (Hgone : ~ In (fst c) (col_names h1)).
  { apply (clean_drops_useless healthdata); [exact E1|].
    apply useless_cols_In. right. eauto. }
  destruct (String.eqb_spec (fst c) "DataValue") as [Hd | Hd].
  { apply Hgone. rewrite Hd. unfold to_numeric_DataValue in E2.
    destruct (get_attr h1 "DataValue") as [v|] eqn:Ev; [|discriminate].
    exact (get_attr_Ok_In _ _ _ Ev). }
  assert (Hother : fst c <> "per_dem" /\ fst c <> "per_gop").
  { simpl in Hname. destruct Hname as [<- | [<- | [<- | [<- | []]]]];
      split; discriminate. }
  destruct Hother as [Hpd Hpg].
  assert (Hgdf : ~ In (fst c) (col_names (frame gdf))).
  { unfold col_names. rewrite <- assoc_None.
    subst gdf. rewrite (joined_assoc parse_number _ _ h1 h2) by assumption.
    now apply assoc_None. }
  unfold correlations in E3.
  destruct (get_attr (frame gdf) "Question") as [Q|] eqn:EQ; [|discriminate].
  cbn [rbind] in E3.
  destruct (String.eqb_spec (fst c) "Question") as [Hq | Hq].
  { apply Hgdf. rewrite Hq. exact (get_attr_Ok_In _ _ _ EQ). }
  assert (HQ : (3 <= length (unique Q))%nat).
  { unfold get_attr in EQ.
    destruct (assoc "Question" (cols (frame gdf))) as [Q'|] eqn:EQ'; [|discriminate].
    injection EQ as ->. subst gdf.
    rewrite (joined_assoc parse_number _ _ h1 h2) in EQ' by (assumption || discriminate).
    exact (proj2 (clean_kept_column _ _ _ _ E1 EQ')). }
  destruct (unique Q) as [|q qs]; [simpl in HQ; lia|].
  cbn [process_all] in E3.
  destruct (process np_corrcoef gdf [] q) as [acc|] eqn:Ep; [|discriminate].
  apply Hgdf. apply (process_reads_columns _ _ _ _ _ Ep).
  simpl in Hname. simpl.
  destruct Hname as [E | [E | [E | [E | []]]]]; rewrite <- E; auto 6.
Qed.

End CleaningAndScript.

Lemma analysed_column_needs_three_values_witness :
  exists e,
    main sample_str sample_round sample_parse pearson overall_only_health sample_votes sample_states
    = (mkWorld None None None, Raise e).
Proof.
  apply (analysed_column_needs_three_values sample_str sample_round sample_parse
           overall_only_health sample_votes sample_states
           ("Stratification1", strs (repeat "Overall" 9))).
  - vm_compute. tauto.
  - vm_compute. tauto.
  - vm_compute. lia.
Defined.

(** On that table the failure is the [KeyError] of line 106. *)
Lemma overall_only_run :
  main sample_str sample_round sample_parse pearson overall_only_health sample_votes sample_states
  = (mkWorld None None None, Raise KeyError).
Proof. vm_compute. reflexivity. Qed.

(** ** Rows without votes *)

(** The per_gop column after the join, row by row. *)
Lemma add_votes_per_gop (voteDict : gmap string (float * float)) (df : DataFrame) :
  assoc "per_gop" (cols (add_votes voteDict df))
  = Some (map (fun i => match lookup_location voteDict df i with
                        | Some (_, g) => CNum g
                        | None => NaN
                        end) (seq 0 (nrows df))).
Proof.
  unfold add_votes. destruct (vote_dicts voteDict df) as [per_dems per_gops] eqn:E.
  unfold set_col. cbn [cols]. rewrite assoc_set_assoc_eq. f_equal.
  unfold series_of. apply map_ext_in. intros i Hi.
  assert (Hg : per_gops = snd (vote_dicts voteDict df)) by now rewrite E.
  unfold vote_dicts in Hg. rewrite vote_dicts_snd in Hg. subst per_gops.
  rewrite fill_lookup, decide_True by now apply list_elem_of_In.
  destruct (lookup_location voteDict df i) as [[d g]|]; reflexivity.
Qed.

Lemma add_geometries_rows (stateDict : gmap string Polygon) (df : DataFrame) :
  geometry (add_geometries stateDict df)
  = map (lookup_location stateDict df) (seq 0 (nrows df)).
Proof.
  unfold add_geometries, geometry_series, geometry_dict. cbn [geometry].
  apply map_ext_in. intros i Hi.
  rewrite geometry_dict_fill, fill_lookup, decide_True by now apply list_elem_of_In.
  destruct (lookup_location stateDict df i); reflexivity.
Qed.

(** Without the LocationAbbr column every lookup fails. *)
Lemma lookup_location_no_column {V : Type} (d : gmap string V) (df : DataFrame) (i : nat) :
  ~ In "LocationAbbr" (col_names df) -> lookup_location d df i = None.
Proof.
  intros H. unfold lookup_location.
  apply assoc_None in H. now rewrite H.
Qed.

Lemma select_Forall {A : Type} (P : A -> Prop) (mask : list bool) (l : list A) :
  Forall P l -> Forall P (select mask l).
Proof.
  revert l. induction mask as [|b mask IH]; intros l H; [constructor|].
  destruct l as [|x l]; [constructor|]. inversion H; subst.
  simpl. destruct b; [constructor|]; auto.
Qed.

Lemma present_pairs_absent (a b : list cell) :
  Forall (fun c => isna c = true) b -> present_pairs a b = [].
Proof.
  revert b. induction a as [|ca a IH]; intros b H; [reflexivity|].
  destruct b as [|cb b]; [now destruct ca|]. inversion H as [|? ? Hcb Hb]; subst.
  simpl. rewrite (IH b Hb). destruct ca as [s|x]; [reflexivity|].
  destruct cb as [t|y]; [reflexivity|]. simpl in Hcb. rewrite Hcb.
  now rewrite andb_false_r.
Qed.

(** When per_gop is absent on every row, every coefficient is Python's
    [nan]. *)
Lemma absent_votes_nan {np_corrcoef : list (float * float) -> float}
    (gdf : GeoDataFrame) (cs : list Entry) (pg : list cell) (e : Entry) :
  correlations np_corrcoef gdf = Ok cs ->
  get_col (frame gdf) "per_gop" = Ok pg ->
  Forall (fun c => isna c = true) pg ->
  In e cs ->
  correlation e = PyFloat nan.
Proof.
  intros Hcs Hpg Hna He. unfold correlations in Hcs.
  destruct (get_attr (frame gdf) "Question") as [Q|]; [|discriminate]. cbn [rbind] in Hcs.
  destruct (process_all_In _ _ _ _ _ Hcs He) as [[] | (new & _ & Hnew & Hin)].
  apply process_inv in Hnew as (sub & dv' & pg' & c & du & Hsub & _ & Hpg' & Hc & _ & ->).
  simpl in Hin. destruct (mode du) as [|u us]; [contradiction|].
  destruct Hin as [<- | []]. cbn [correlation].
  apply overall_rows_inv in Hsub as (qcol & scol & _ & _ & ->).
  cbn [geo_loc frame] in Hpg'.
  apply get_col_loc in Hpg' as (pg1 & Hpg' & ->).
  apply get_col_loc in Hpg' as (pg0 & Hpg' & ->).
  rewrite Hpg in Hpg'. injection Hpg' as <-.
  apply corr_kind in Hc. rewrite present_pairs_absent in Hc; [exact Hc|].
  now apply select_Forall, select_Forall.
Qed.

Section FewLocations.

Variable parse_number : string -> option float.
Context {np_corrcoef : list (float * float) -> float}.

(** X10: if LocationAbbr has fewer than 3 distinct values in the raw
    health table (a table of one or two states), the cleaner drops it;
    every lookup of the two joins then fails silently, so every recorded
    coefficient is Python's [nan] and no retained row has a shape. *)
Theorem few_locations_all_nan (healthdata : DataFrame) (votedata : list CountyRow)
    (states_gdf : list (string * Polygon)) (c : string * list cell)
    (CORRELATIONS : list Entry) (e : Entry) :
  In c (cols healthdata) ->
  fst c = "LocationAbbr" ->
  (length (unique (snd c)) < 3)%nat ->
  sorted_correlations parse_number np_corrcoef healthdata votedata states_gdf = Ok CORRELATIONS ->
  In e CORRELATIONS ->
  correlation e = PyFloat nan /\ Forall (fun shape => shape = None) (geometry (sub_gdf e)).
Proof.
  intros Hc Hname Hlt Hs He. unfold sorted_correlations in Hs.
  destruct (clean healthdata) as [h1|] eqn:E1; [|discriminate]. cbn [rbind] in Hs.
  destruct (to_numeric_DataValue parse_number h1) as [h2|] eqn:E2; [|discriminate].
  cbn [rbind] in Hs.
  set (voteDict := make_voteDict (grouped votedata)) in *.
  set (stateDict := make_stateDict states_gdf) in *.
  destruct (correlations np_corrcoef (add_geometries stateDict (add_votes voteDict h2)))
    as [cs|] eqn:E3; [|discriminate].
  cbn [rbind] in Hs. injection Hs as <-.
  apply (proj1 (list_sort_In key_lt cs e)) in He.
  assert (Hgone : ~ In "LocationAbbr" (col_names h1)).
  { rewrite <- Hname. apply (clean_drops_useless healthdata); [exact E1|].
    apply useless_cols_In. right. eauto. }
  assert (Hgone2 : ~ In "LocationAbbr" (col_names h2)).
  { unfold to_numeric_DataValue in E2.
    destruct (get_attr h1 "DataValue") as [v|] eqn:Ev; [|discriminate].
    injection E2 as <-. unfold col_names, set_col. cbn [cols].
    rewrite set_assoc_names. intros [H | H]; [contradiction | discriminate H]. }
  assert (Hgone3 : ~ In "LocationAbbr" (col_names (add_votes voteDict h2))).
  { unfold add_votes. destruct (vote_dicts voteDict h2) as [pd pg].
    unfold col_names, set_col. cbn [cols]. rewrite !set_assoc_names.
    intros [[H | H] | H]; [contradiction | discriminate H | discriminate H]. }
  split.
  - apply (absent_votes_nan _ cs
             (map (fun i => match lookup_location voteDict h2 i with
                            | Some (_, g) => CNum g
                            | None => NaN
                            end) (seq 0 (nrows h2))) e E3).
    + unfold get_col, add_geometries. cbn [frame]. now rewrite add_votes_per_gop.
    + apply Forall_forall. intros x Hx. apply list_elem_of_In, in_map_iff in Hx as (i & <- & _).
      now rewrite lookup_location_no_column.
    + exact He.
  - unfold correlations in E3.
    destruct (get_attr _ "Question") as [Q|]; [|discriminate]. cbn [rbind] in E3.
    destruct (process_all_In _ _ _ _ _ E3 He) as [[] | (new & _ & Hnew & Hin)].
    apply process_inv in Hnew as (sub & dv' & pg' & c' & du & Hsub & _ & _ & _ & _ & ->).
    simpl in Hin. destruct (mode du) as [|u us]; [contradiction|].
    destruct Hin as [<- | []]. cbn [sub_gdf].
    apply overall_rows_inv in Hsub as (qcol & scol & _ & _ & ->).
    cbn [geo_loc geometry]. apply select_Forall, select_Forall.
    rewrite add_geometries_rows.
    apply Forall_forall. intros x Hx. apply list_elem_of_In, in_map_iff in Hx as (i & <- & _).
    now apply lookup_location_no_column.
Qed.

End FewLocations.

Lemma two_state_sorted_correlations :
  exists CORRELATIONS,
    sorted_correlations sample_parse pearson two_state_health sample_votes sample_states
    = Ok CORRELATIONS /\
    map question CORRELATIONS = [CStr "Q1"; CStr "Q2"; CStr "Q3"].
Proof. eexists. split; vm_compute; reflexivity. Qed.

Lemma few_locations_all_nan_witness :
  exists CORRELATIONS,
    sorted_correlations sample_parse pearson two_state_health sample_votes sample_states
    = Ok CORRELATIONS /\
    length CORRELATIONS = 3%nat /\
    Forall (fun e => correlation e = PyFloat nan /\
                     Forall (fun shape => shape = None) (geometry (sub_gdf e)))
           CORRELATIONS.
Proof.
  destruct (sorted_correlations sample_parse pearson two_state_health sample_votes sample_states)
    as [cs|] eqn:E; [|vm_compute in E; discriminate E].
  exists cs. split; [reflexivity|]. split.
  - vm_compute in E. injection E as <-. reflexivity.
  - apply Forall_forall. intros e He. apply list_elem_of_In in He.
    apply (few_locations_all_nan (np_corrcoef := pearson) sample_parse
             two_state_health sample_votes sample_states
             ("LocationAbbr",
              strs ["AK"; "AL"; "AK"; "AK"; "AL"; "AL"; "AK"; "AL"; "AK"; "AK"; "AK"])
             cs e).
    + vm_compute. tauto.
    + reflexivity.
    + vm_compute. lia.
    + exact E.
    + exact He.
Defined.

(** ** Numeric coercion *)

Lemma set_assoc_same_names (name : string) (v w : list cell)
    (cs : list (string * list cell)) :
  assoc name cs = Some w -> map fst (set_assoc name v cs) = map fst cs.
Proof.
  induction cs as [|[n x] cs IH]; simpl; [discriminate|].
  destruct (String.eqb_spec n name) as [-> | Hne]; [reflexivity|].
  intros H. simpl. now rewrite IH.
Qed.

Section CoercionFacts.

Variable parse_number : string -> option float.

(** X11: the coercion of line 38 changes nothing but the cells of
    DataValue: the rows, the column names and their order and every
    other column stay; in DataValue a number stays as it is, a text
    becomes the number it denotes or, when it denotes none, a missing
    value, so that no cell is a text afterwards. *)
Theorem coercion_only_touches_DataValue (df df' : DataFrame) :
  to_numeric_DataValue parse_number df = Ok df' ->
  nrows df' = nrows df /\
  col_names df' = col_names df /\
  (forall name, name <> "DataValue" -> assoc name (cols df') = assoc name (cols df)) /\
  exists v v',
    get_attr df "DataValue" = Ok v /\ get_col df' "DataValue" = Ok v' /\
    length v' = length v /\
    Forall (fun c => is_str c = false) v' /\
    forall i c, v !! i = Some c ->
      v' !! i = Some (match c with
                      | CNum f => CNum f
                      | CStr s => match parse_number s with
                                  | Some f => CNum f
                                  | None => NaN
                                  end
                      end).
Proof.
  unfold to_numeric_DataValue, get_attr, get_col.
  destruct (assoc "DataValue" (cols df)) as [v|] eqn:Ev; [|discriminate].
  cbn [rbind]. intros [= <-]. unfold set_col, col_names. cbn [nrows cols].
  split; [reflexivity|]. split; [exact (set_assoc_same_names _ _ _ _ Ev)|].
  split; [intros name Hne; now apply assoc_set_assoc_ne|].
  exists v, (map (coerce parse_number) v). rewrite assoc_set_assoc_eq.
  split; [reflexivity|]. split; [reflexivity|]. split; [apply length_map|]. split.
  - apply Forall_forall. intros c Hc. apply list_elem_of_In, in_map_iff in Hc as (x & <- & _).
    destruct x as [s|f]; simpl; [destruct (parse_number s)|]; reflexivity.
  - intros i c Hi. rewrite list_lookup_fmap, Hi. reflexivity.
Qed.

End CoercionFacts.

Lemma coercion_only_touches_DataValue_witness :
  to_numeric_DataValue sample_parse text_health
  = Ok (mkFrame 3 [ ("Question", strs ["Q1"; "Q2"; "Q3"]);
                    ("DataValue", [NaN; CNum 2; NaN]%float) ]) /\
  exists v v',
    get_attr text_health "DataValue" = Ok v /\
    get_col (mkFrame 3 [ ("Question", strs ["Q1"; "Q2"; "Q3"]);
                         ("DataValue", [NaN; CNum 2; NaN]%float) ]) "DataValue" = Ok v' /\
    length v' = length v /\
    Forall (fun c => is_str c = false) v' /\
    forall i c, v !! i = Some c ->
      v' !! i = Some (match c with
                      | CNum f => CNum f
                      | CStr s => match sample_parse s with
                                  | Some f => CNum f
                                  | None => NaN
                                  end
                      end).
Proof.
  split; [reflexivity|].
  exact (proj2 (proj2 (proj2
           (coercion_only_touches_DataValue sample_parse text_health _ eq_refl)))).
Defined.

(** ** What the loop records *)

Lemma existsb_notna_false (l : list cell) :
  existsb notna l = false <-> Forall (fun c => isna c = true) l.
Proof.
  induction l as [|c l IH]; simpl.
  - split; [constructor | reflexivity].
  - unfold notna at 1. destruct (isna c) eqn:E; simpl.
    + rewrite IH. split; [now constructor | now inversion 1].
    + split; [discriminate | inversion 1; congruence].
Qed.

(** The units left by the two filters hold a present one exactly when
    some row of the table has the question, "Overall" and a unit. *)
Lemma has_unit_row_select (q : cell) (qcol scol ucol : list cell) :
  existsb notna (select (overall_mask q qcol scol) (select (question_mask q qcol) ucol))
  = has_unit_row q qcol scol ucol.
Proof.
  unfold overall_mask, question_mask.
  revert scol ucol. induction qcol as [|cq qcol IH]; intros scol ucol.
  - reflexivity.
  - destruct scol as [|cs scol].
    { simpl. destruct (py_eq cq q); reflexivity. }
    destruct ucol as [|cu ucol].
    { simpl. destruct (py_eq cq q); simpl;
        [destruct (py_eq cs (CStr "Overall"))|]; rewrite ?select_nil_r; reflexivity. }
    simpl. rewrite <- IH. destruct (py_eq cq q); simpl; [|reflexivity].
    destruct (py_eq cs (CStr "Overall")); reflexivity.
Qed.

Section LoopRecords.

Context {np_corrcoef : list (float * float) -> float}.
Variables (gdf : GeoDataFrame) (Question Stratification1 DataValueUnit : list cell).
Hypothesis HQ : get_col (frame gdf) "Question" = Ok Question.
Hypothesis HS : get_col (frame gdf) "Stratification1" = Ok Stratification1.
Hypothesis HU : get_col (frame gdf) "DataValueUnit" = Ok DataValueUnit.

(** A turn records its question exactly when the question has a unit. *)
Lemma process_records (acc acc' : list Entry) (q : cell) :
  process np_corrcoef gdf acc q = Ok acc' ->
  map question acc'
  = map question acc
    ++ (if has_unit_row q Question Stratification1 DataValueUnit then [q] else []).
Proof.
  intros H. apply process_inv in H as (sub & dv & pg & c & du & Hsub & _ & _ & _ & Hdu & ->).
  apply get_attr_get_col in Hdu.
  destruct (overall_rows_col _ _ _ _ _ _ _ Hsub HQ HS Hdu) as (w & Hw & ->).
  rewrite HU in Hw. injection Hw as <-.
  rewrite <- has_unit_row_select, map_app. f_equal.
  destruct (mode _) as [|u us] eqn:Em.
  - apply mode_nil_iff, existsb_notna_false in Em. now rewrite Em.
  - destruct (existsb notna _) eqn:Ex; [reflexivity|].
    apply existsb_notna_false, mode_nil_iff in Ex. congruence.
Qed.

Lemma process_all_records (qs : list cell) (acc cs : list Entry) :
  process_all np_corrcoef gdf acc qs = Ok cs ->
  map question cs
  = map question acc
    ++ List.filter (fun q => has_unit_row q Question Stratification1 DataValueUnit) qs.
Proof.
  revert acc. induction qs as [|q qs IH]; intros acc H; simpl in H.
  - injection H as <-. now rewrite app_nil_r.
  - destruct (process np_corrcoef gdf acc q) as [acc'|] eqn:Ep; [|discriminate].
    cbn [rbind] in H.
    rewrite (IH _ H), (process_records _ _ _ Ep), <- app_assoc. f_equal.
    simpl. now destruct (has_unit_row q Question Stratification1 DataValueUnit).
Qed.

End LoopRecords.

(** X12: the loop records one result for every distinct Question value
    for which some row of the table has that question, Stratification1
    "Overall" and a unit of measure that is present, and none for any
    other; the results are in the order in which the questions first
    appear in the table. *)
Theorem recorded_questions {np_corrcoef : list (float * float) -> float}
    (gdf : GeoDataFrame) (CORRELATIONS : list Entry)
    (Question Stratification1 DataValueUnit : list cell) :
  correlations np_corrcoef gdf = Ok CORRELATIONS ->
  get_col (frame gdf) "Question" = Ok Question ->
  get_col (frame gdf) "Stratification1" = Ok Stratification1 ->
  get_col (frame gdf) "DataValueUnit" = Ok DataValueUnit ->
  map question CORRELATIONS
  = List.filter (fun q => has_unit_row q Question Stratification1 DataValueUnit)
      (unique Question).
Proof.
  unfold correlations. intros H HQ HS HU.
  rewrite (proj2 (get_attr_get_col _ _ _) HQ) in H. cbn [rbind] in H.
  now rewrite (process_all_records gdf _ _ _ HQ HS HU _ _ _ H).
Qed.

Lemma strata_correlations : correlations pearson strata_gdf = Ok strata_results.
Proof. vm_compute. reflexivity. Qed.

(** The second question of this table has units on stratified rows
    only: no result is recorded for it. *)
Lemma recorded_questions_witness :
  map question strata_results = [CStr "Q1"] /\
  List.filter
    (fun q => has_unit_row q
                (strs ["Q1"; "Q1"; "Q1"; "Q5"; "Q5"; "Q5"])
                (strs ["Overall"; "Overall"; "Overall"; "Male"; "Female"; "Male"])
                (strs ["%"; "%"; "%"; "Number"; "Number"; "Number"]))
    (unique (strs ["Q1"; "Q1"; "Q1"; "Q5"; "Q5"; "Q5"]))
  = [CStr "Q1"].
Proof.
  assert (H : map question strata_results
              = List.filter
                  (fun q => has_unit_row q
                              (strs ["Q1"; "Q1"; "Q1"; "Q5"; "Q5"; "Q5"])
                              (strs ["Overall"; "Overall"; "Overall"; "Male"; "Female"; "Male"])
                              (strs ["%"; "%"; "%"; "Number"; "Number"; "Number"]))
                  (unique (strs ["Q1"; "Q1"; "Q1"; "Q5"; "Q5"; "Q5"]))).
  { exact (recorded_questions strata_gdf strata_results _ _ _
             strata_correlations eq_refl eq_refl eq_refl). }
  split; [|rewrite <- H]; vm_compute; reflexivity.
Defined.

(** ** Distinct values *)

Lemma is_nan_SF (x : float) : is_nan x = true <-> Prim2SF x = S754_nan.
Proof.
  unfold is_nan. rewrite FloatAxioms.eqb_spec, negb_true_iff. split.
  - intros H. destruct (Prim2SF x) eqn:E; try reflexivity; exfalso.
    all: assert (Hk : SFeqb (Prim2SF x) (Prim2SF x) = true)
           by (apply SFeqb_key; rewrite E; repeat split; discriminate).
    all: rewrite E in Hk; congruence.
  - intros ->. reflexivity.
Qed.

(** Two numbers are one key of a hash table exactly when they stand for
    one value. *)
Lemma float_key_class (x y : float) :
  ((x =? y)%float || (is_nan x && is_nan y)) = true <-> float_class x = float_class y.
Proof.
  unfold float_class.
  destruct (is_nan x) eqn:Ex, (is_nan y) eqn:Ey; simpl.
  - rewrite orb_true_r. tauto.
  - rewrite orb_false_r. apply is_nan_SF in Ex.
    rewrite FloatAxioms.eqb_spec, Ex. simpl. split; discriminate.
  - rewrite orb_false_r. apply is_nan_SF in Ey.
    rewrite FloatAxioms.eqb_spec, Ey. split; [|discriminate].
    destruct (Prim2SF x); discriminate.
  - rewrite orb_false_r, FloatAxioms.eqb_spec, SFeqb_key.
    apply not_nan_spec in Ex, Ey. split.
    + intros (_ & _ & ->). reflexivity.
    + intros [= E]. auto.
Qed.

Lemma same_key_class (a b : cell) : same_key a b = true <-> cell_class a = cell_class b.
Proof.
  destruct a as [s|x], b as [t|y]; simpl.
  - rewrite String.eqb_eq. split; congruence.
  - split; discriminate.
  - split; discriminate.
  - rewrite float_key_class. split; congruence.
Qed.

Lemma same_key_refl (a : cell) : same_key a a = true.
Proof. now apply same_key_class. Qed.

Lemma same_key_ext (a b x : cell) :
  cell_class a = cell_class b -> same_key a x = same_key b x.
Proof.
  intros H. destruct (same_key a x) eqn:Ea, (same_key b x) eqn:Eb; try reflexivity.
  - apply same_key_class in Ea. rewrite H in Ea. apply same_key_class in Ea. congruence.
  - apply same_key_class in Eb. rewrite <- H in Eb. apply same_key_class in Eb. congruence.
Qed.

Lemma existsb_same_key (c : cell) (seen : list cell) :
  existsb (same_key c) seen = true <-> In (cell_class c) (map cell_class seen).
Proof.
  rewrite existsb_exists, in_map_iff. split.
  - intros (x & Hx & E). apply same_key_class in E. eauto.
  - intros (x & E & Hx). exists x. split; [exact Hx|]. now apply same_key_class.
Qed.

(** What [unique] keeps: the first cell of every value not seen before. *)
Lemma unique_from_classes (seen l : list cell) (k : string + option (Z * Z * Z)) :
  In k (map cell_class (unique_from seen l)) <->
  In k (map cell_class l) /\ ~ In k (map cell_class seen).
Proof.
  revert seen. induction l as [|c l IH]; intros seen; simpl; [tauto|].
  destruct (existsb (same_key c) seen) eqn:E.
  - apply existsb_same_key in E. rewrite IH. split; [tauto|].
    intros [[<- | H] Hn]; [contradiction | tauto].
  - assert (Hc : ~ In (cell_class c) (map cell_class seen)).
    { rewrite <- existsb_same_key. congruence. }
    simpl. rewrite IH. simpl.
    destruct (decide (cell_class c = k)) as [<- | Hne]; [tauto|]. tauto.
Qed.

Lemma unique_from_NoDup (seen l : list cell) :
  NoDup (map cell_class (unique_from seen l)).
Proof.
  revert seen. induction l as [|c l IH]; intros seen; simpl; [constructor|].
  destruct (existsb (same_key c) seen); [apply IH|].
  simpl. constructor; [|apply IH].
  rewrite list_elem_of_In, unique_from_classes. simpl. tauto.
Qed.

Lemma unique_In (l : list cell) (c : cell) : In c (unique l) -> In c l.
Proof.
  unfold unique. generalize (@nil cell) as seen.
  induction l as [|x l IH]; intros seen; simpl; [tauto|].
  destruct (existsb (same_key x) seen).
  - intros H. right. exact (IH _ H).
  - intros [<- | H]; [now left | right; exact (IH _ H)].
Qed.

(** The number [len(unique_vals)] that line 32 compares with 3 is the
    number of distinct values of the column, where all missing cells
    count as one value and 0.0 and -0.0 as one. *)
Lemma unique_counts_values (l : list cell) :
  length (unique l) = length (remove_dups (map cell_class l)).
Proof.
  rewrite <- (length_map cell_class (unique l)).
  apply Permutation_length, NoDup_Permutation.
  - apply unique_from_NoDup.
  - apply NoDup_remove_dups.
  - intros k. rewrite elem_of_remove_dups, !list_elem_of_In.
    unfold unique. rewrite unique_from_classes. simpl. tauto.
Qed.

(** A column with a missing cell and two texts has three values. *)
Lemma unique_counts_missing :
  length (unique [CStr "a"; NaN; CStr "b"; NaN; CStr "a"]) = 3%nat.
Proof. reflexivity. Qed.

Lemma same_name_same_column (cs : list (string * list cell)) (c c' : string * list cell) :
  NoDup (map fst cs) -> In c cs -> In c' cs -> fst c = fst c' -> c = c'.
Proof.
  induction cs as [|x cs IH]; [contradiction|].
  simpl. rewrite NoDup_cons, list_elem_of_In. intros [Hx Hnd] Hc Hc' E.
  destruct Hc as [-> | Hc], Hc' as [-> | Hc']; auto.
  - exfalso. apply Hx. rewrite E. now apply in_map.
  - exfalso. apply Hx. rewrite <- E. now apply in_map.
Qed.

(** X13: a column of the raw health table is a column of the cleaned
    table exactly when it is not on the denylist and holds at least
    three distinct values, all missing cells counting as one value. *)
Theorem kept_iff_three_values (df df' : DataFrame) (c : string * list cell) :
  NoDup (col_names df) ->
  clean df = Ok df' ->
  In c (cols df) ->
  (In c (cols df') <->
   ~ In (fst c) denylist /\ (3 <= length (remove_dups (map cell_class (snd c))))%nat).
Proof.
  intros Hnd Hclean Hc. rewrite <- unique_counts_values.
  pose proof Hclean as Hcols. unfold clean in Hcols.
  apply drop_Ok in Hcols as (_ & _ & Hcols). rewrite Hcols, filter_In.
  rewrite Bool.negb_true_iff, mem_str_not_In, useless_cols_In. split.
  - intros [_ Hn]. split; [tauto|].
    destruct (Nat.lt_ge_cases (length (unique (snd c))) 3) as [Hlt | Hge]; [|exact Hge].
    exfalso. apply Hn. right. eauto.
  - intros [Hd Hge]. split; [exact Hc|].
    intros [Hin | (c' & Hc' & E & Hlt)]; [contradiction|].
    assert (c' = c) by (apply (same_name_same_column (cols df)); auto).
    subst c'. lia.
Qed.

Lemma kept_iff_three_values_witness :
  In ("DataValueUnit",
      strs ["%"; "%"; "%"; "%"; "%"; "Number"; "Years"; "Years"; "Years"; "%"; "%"] ++ [NaN])
     (cols (mkFrame 12 (firstn 5 (cols sample_health))))
  <-> ~ In "DataValueUnit" denylist /\
      (3 <= length (remove_dups
                      (map cell_class
                         (strs ["%"; "%"; "%"; "%"; "%"; "Number"; "Years"; "Years";
                                "Years"; "%"; "%"] ++ [NaN]))))%nat.
Proof.
  apply (kept_iff_three_values sample_health (mkFrame 12 (firstn 5 (cols sample_health)))
           ("DataValueUnit",
            strs ["%"; "%"; "%"; "%"; "%"; "Number"; "Years"; "Years"; "Years"; "%"; "%"]
            ++ [NaN])).
  - apply (bool_decide_unpack _). vm_compute. reflexivity.
  - exact clean_sample_health.
  - vm_compute. tauto.
Defined.

(** ** The rows and the unit kept with a result *)

Lemma select_own_mask (f : cell -> bool) (l : list cell) :
  Forall (fun c => f c = true) (select (map f l) l).
Proof.
  induction l as [|c l IH]; simpl; [constructor|].
  destruct (f c) eqn:E; [constructor|]; auto.
Qed.

Lemma fold_max_bounds (f : cell -> nat) (keys : list cell) (k : cell) :
  In k keys -> (f k <= fold_right (fun c m => Nat.max (f c) m) 0 keys)%nat.
Proof.
  induction keys as [|c keys IH]; [contradiction|].
  simpl. intros [-> | H]; [lia|]. specialize (IH H). lia.
Qed.

(** Every cell has its value among the cells [unique] keeps. *)
Lemma unique_represents (l : list cell) (c : cell) :
  In c l -> exists k, In k (unique l) /\ cell_class k = cell_class c.
Proof.
  intros Hc.
  assert (H : In (cell_class c) (map cell_class (unique l))).
  { unfold unique. apply unique_from_classes. split; [now apply in_map | simpl; tauto]. }
  apply in_map_iff in H as (k & E & Hk). eauto.
Qed.

Lemma occurrences_class (a b : cell) (l : list cell) :
  cell_class a = cell_class b -> occurrences a l = occurrences b l.
Proof.
  intros H. unfold occurrences. f_equal. apply filter_ext. intros x.
  now apply same_key_ext.
Qed.

(** The first value of [mode]: a present cell that no present cell
    outnumbers. *)
Lemma mode_head (l : list cell) (u : cell) (us : list cell) :
  mode l = u :: us ->
  In u l /\ notna u = true /\
  forall c, In c l -> notna c = true ->
    (occurrences c (List.filter notna l) <= occurrences u (List.filter notna l))%nat.
Proof.
  unfold mode. set (present := List.filter notna l). intros H.
  assert (Hu : In u (List.filter
                       (fun c => (occurrences c present =?
                                  fold_right (fun c m => Nat.max (occurrences c present) m)
                                             0 (unique present))%nat)
                       (unique present))).
  { apply list_elem_of_In. rewrite <- (merge_sort_Permutation cell_le), H.
    apply elem_of_cons. now left. }
  apply filter_In in Hu as [Hk Htop]. apply Nat.eqb_eq in Htop.
  apply unique_In in Hk. pose proof Hk as Hp. apply filter_In in Hp as [Hin Hna].
  split; [exact Hin|]. split; [exact Hna|].
  intros c Hc Hcna.
  assert (Hcp : In c present) by (apply filter_In; auto).
  destruct (unique_represents present c Hcp) as (k & Hkin & E).
  rewrite <- (occurrences_class k c present E), Htop.
  now apply (fold_max_bounds (fun c => occurrences c present)).
Qed.

(** X14: the frame kept with a result holds only rows whose Question
    equals the result's question and whose Stratification1 is
    "Overall"; the unit kept with it is a unit present on those rows,
    and no unit is present on more of them. *)
Theorem retained_rows_and_unit {np_corrcoef : list (float * float) -> float}
    (gdf : GeoDataFrame) (CORRELATIONS : list Entry) (e : Entry) :
  correlations np_corrcoef gdf = Ok CORRELATIONS ->
  In e CORRELATIONS ->
  exists qs ss du,
    get_col (frame (sub_gdf e)) "Question" = Ok qs /\
    Forall (fun c => py_eq c (question e) = true) qs /\
    get_col (frame (sub_gdf e)) "Stratification1" = Ok ss /\
    Forall (fun c => c = CStr "Overall") ss /\
    get_attr (frame (sub_gdf e)) "DataValueUnit" = Ok du /\
    In (units e) du /\ notna (units e) = true /\
    forall c, In c du -> notna c = true ->
      (occurrences c (List.filter notna du)
       <= occurrences (units e) (List.filter notna du))%nat.
Proof.
  intros Hcs He. unfold correlations in Hcs.
  destruct (get_attr (frame gdf) "Question") as [Q|]; [|discriminate]. cbn [rbind] in Hcs.
  destruct (process_all_In _ _ _ _ _ Hcs He) as [[] | (new & _ & Hnew & Hin)].
  set (q := question e) in Hnew. clearbody q.
  apply process_inv in Hnew as (sub & dv & pg & c & du & Hsub & _ & _ & _ & Hdu & ->).
  simpl in Hin. destruct (mode du) as [|u us] eqn:Em; [contradiction|].
  destruct Hin as [E | []]. clear He. subst e. cbn [sub_gdf units question].
  apply overall_rows_inv in Hsub as (qcol & scol & Hq & Hs & ->).
  exists (select (overall_mask q qcol scol) (select (question_mask q qcol) qcol)),
         (select (overall_mask q qcol scol) (select (question_mask q qcol) scol)), du.
  split.
  { cbn [geo_loc frame]. apply get_col_loc. eexists. split; [|reflexivity].
    apply get_col_loc. eauto. }
  split.
  { apply select_Forall. unfold question_mask.
    apply (select_own_mask (fun c => py_eq c q)). }
  split.
  { cbn [geo_loc frame]. apply get_col_loc. eexists. split; [|reflexivity].
    apply get_col_loc. eauto. }
  split.
  { unfold overall_mask.
    eapply List.Forall_impl;
      [|apply (select_own_mask (fun c => py_eq c (CStr "Overall")))].
    intros x Hx. simpl in Hx. destruct x as [s|f]; [|discriminate].
    apply String.eqb_eq in Hx. now subst. }
  split; [exact Hdu|].
  exact (mode_head du u us Em).
Qed.

Lemma retained_rows_and_unit_witness :
  Forall
    (fun e =>
       exists qs ss du,
         get_col (frame (sub_gdf e)) "Question" = Ok qs /\
         Forall (fun c => py_eq c (question e) = true) qs /\
         get_col (frame (sub_gdf e)) "Stratification1" = Ok ss /\
         Forall (fun c => c = CStr "Overall") ss /\
         get_attr (frame (sub_gdf e)) "DataValueUnit" = Ok du /\
         In (units e) du /\ notna (units e) = true /\
         forall c, In c du -> notna c = true ->
           (occurrences c (List.filter notna du)
            <= occurrences (units e) (List.filter notna du))%nat)
    sample_results.
Proof.
  apply Forall_forall. intros e He. apply list_elem_of_In in He.
  exact (retained_rows_and_unit sample_gdf sample_results e sample_correlations He).
Defined.

(** ** What the report writes for a coefficient, and where it stops *)

Section ReportExtras.

Variable py_str : pynum -> string.
Variable py_round : float -> Z -> float.
Variable parse_number : string -> option float.
Context {np_corrcoef : list (float * float) -> float}.

(** X15: what is written after the question field of a result.  When
    at least one row kept with the result has both a DataValue and a
    per_gop, it is [str] of the NumPy scalar of the Pearson coefficient,
    not rounded; otherwise the coefficient is Python's [nan], the only
    value the rounding to three decimals is ever applied to. *)
Theorem rounding_reaches_only_nan (gdf : GeoDataFrame) (CORRELATIONS : list Entry)
    (e : Entry) :
  correlations np_corrcoef gdf = Ok CORRELATIONS ->
  In e CORRELATIONS ->
  exists dv pg,
    get_col (frame (sub_gdf e)) "DataValue" = Ok dv /\
    get_col (frame (sub_gdf e)) "per_gop" = Ok pg /\
    match present_pairs dv pg with
    | [] =>
        correlation e = PyFloat nan /\
        coefficient_text py_str py_round (correlation e)
        = py_str (PyFloat (py_round nan 3)) +:+ newline
    | pairs =>
        coefficient_text py_str py_round (correlation e)
        = py_str (NpFloat64 (np_corrcoef pairs)) +:+ newline
    end.
Proof.
  intros Hcs He. unfold correlations in Hcs.
  destruct (get_attr (frame gdf) "Question") as [Q|]; [|discriminate]. cbn [rbind] in Hcs.
  destruct (process_all_In _ _ _ _ _ Hcs He) as [[] | (new & _ & Hnew & Hin)].
  set (q := question e) in Hnew. clearbody q.
  apply process_inv in Hnew as (sub & dv & pg & c & du & _ & Hdv & Hpg & Hc & _ & ->).
  simpl in Hin. destruct (mode du) as [|u us]; [contradiction|].
  destruct Hin as [E | []]. clear He. subst e. cbn [sub_gdf correlation].
  exists dv, pg. split; [exact Hdv|]. split; [exact Hpg|].
  apply corr_kind in Hc. destruct (present_pairs dv pg); subst c.
  - split; reflexivity.
  - reflexivity.
Qed.

(** The loop of the report stops at the first entry whose question or
    unit is no string, with the lines of the entries before it
    written. *)
Lemma write_entries_stops (pre post : list Entry) (e : Entry) (written : string) :
  Forall (fun x => is_str (question x) && is_str (units x) = true) pre ->
  is_str (question e) && is_str (units e) = false ->
  exists lines,
    Forall2 (fun x line => report_line py_str py_round x = Ok line) pre lines /\
    write_entries py_str py_round written (pre ++ e :: post)
    = (written +:+ String.concat "" lines, Raise TypeError).
Proof.
  intros Hpre He. revert written.
  induction Hpre as [|x pre Hx _ IH]; intros written.
  - exists []. split; [constructor|]. cbn [app write_entries String.concat].
    rewrite append_empty_r. unfold report_line, qstring.
    destruct (question e), (units e); try discriminate He; reflexivity.
  - assert (Hl : exists line, report_line py_str py_round x = Ok line).
    { unfold report_line, qstring.
      destruct (question x), (units x); try discriminate Hx. cbn [rbind]. eauto. }
    destruct Hl as (line & Hl).
    destruct (IH (written +:+ line)) as (lines & Hlines & Hw).
    exists (line :: lines). split; [now constructor|].
    cbn [app write_entries]. rewrite Hl, Hw. f_equal.
    rewrite append_assoc. f_equal.
    destruct lines; [|reflexivity].
    cbn [String.concat]. now rewrite append_empty_r.
Qed.

(** X16: when a sorted result has a question or a unit that is no
    string and every result before it has strings for both, the script
    ends with [TypeError]; the report then holds the header and the
    lines of the results before it, and nothing is printed or drawn. *)
Theorem report_stops_at_non_string (healthdata : DataFrame) (votedata : list CountyRow)
    (states_gdf : list (string * Polygon)) (pre post : list Entry) (e : Entry) :
  sorted_correlations parse_number np_corrcoef healthdata votedata states_gdf
  = Ok (pre ++ e :: post) ->
  Forall (fun x => is_str (question x) && is_str (units x) = true) pre ->
  is_str (question e) && is_str (units e) = false ->
  exists lines,
    Forall2 (fun x line => report_line py_str py_round x = Ok line) pre lines /\
    main py_str py_round parse_number np_corrcoef healthdata votedata states_gdf
    = (mkWorld (Some (header +:+ String.concat "" lines)) None None, Raise TypeError).
Proof.
  intros Hs Hpre He.
  destruct (write_entries_stops pre post e header Hpre He) as (lines & Hlines & Hw).
  exists lines. split; [exact Hlines|].
  unfold main, write_report. rewrite Hs, Hw. reflexivity.
Qed.

End ReportExtras.

Lemma rounding_reaches_only_nan_witness :
  Forall
    (fun e =>
       exists dv pg,
         get_col (frame (sub_gdf e)) "DataValue" = Ok dv /\
         get_col (frame (sub_gdf e)) "per_gop" = Ok pg /\
         match present_pairs dv pg with
         | [] =>
             correlation e = PyFloat nan /\
             coefficient_text sample_str sample_round (correlation e)
             = sample_str (PyFloat (sample_round nan 3)) +:+ newline
         | pairs =>
             coefficient_text sample_str sample_round (correlation e)
             = sample_str (NpFloat64 (pearson pairs)) +:+ newline
         end)
    sample_results.
Proof.
  apply Forall_forall. intros e He. apply list_elem_of_In in He.
  exact (rounding_reaches_only_nan sample_str sample_round sample_gdf sample_results e
           sample_correlations He).
Defined.

Lemma number_unit_sorted_questions :
  exists pre e post,
    sorted_correlations sample_parse pearson number_unit_health sample_votes sample_states
    = Ok (pre ++ e :: post) /\
    map question pre = [CStr "Q3"] /\ map units pre = [CStr "Years"] /\
    question e = CStr "Q2" /\ units e = CNum 1.
Proof.
  destruct (sorted_correlations sample_parse pearson number_unit_health sample_votes sample_states)
    as [cs|] eqn:E; vm_compute in E; [|discriminate].
  injection E as <-.
  eexists [_], _, [_]. split; [reflexivity|]. repeat split; reflexivity.
Qed.

Lemma report_stops_at_non_string_witness :
  exists pre e post lines,
    sorted_correlations sample_parse pearson number_unit_health sample_votes sample_states
    = Ok (pre ++ e :: post) /\
    Forall (fun x => is_str (question x) && is_str (units x) = true) pre /\
    is_str (question e) && is_str (units e) = false /\
    Forall2 (fun x line => report_line sample_str sample_round x = Ok line) pre lines /\
    main sample_str sample_round sample_parse pearson number_unit_health sample_votes sample_states
    = (mkWorld (Some (header +:+ String.concat "" lines)) None None, Raise TypeError).
Proof.
  destruct number_unit_sorted_questions as (pre & e & post & Hs & Hq & Hu & Heq & Heu).
  assert (Hpre : Forall (fun x => is_str (question x) && is_str (units x) = true) pre).
  { destruct pre as [|x [|y pre]]; try discriminate Hq.
    injection Hq as Hq. injection Hu as Hu. constructor; [|constructor].
    rewrite Hq, Hu. reflexivity. }
  assert (He : is_str (question e) && is_str (units e) = false).
  { rewrite Heq, Heu. reflexivity. }
  destruct (report_stops_at_non_string sample_str sample_round sample_parse
              number_unit_health sample_votes sample_states pre post e Hs Hpre He)
    as (lines & Hlines & Hmain).
  exists pre, e, post, lines. auto.
Defined.

(** ** A state without counts *)

Lemma nansum_all_missing (l : list float) :
  Forall (fun x => is_nan x = true) l -> nansum l = 0%float.
Proof.
  unfold nansum. generalize 0%float as acc.
  induction l as [|x l IH]; intros acc H; [reflexivity|].
  inversion H as [|? ? Hx Hl]; subst. simpl. rewrite Hx. now apply IH.
Qed.

Lemma in_state_abbr (s : string) (r : CountyRow) :
  in_state s r = true <-> state_abbr r = Some s.
Proof.
  unfold in_state. destruct (state_abbr r) as [t|]; [|split; discriminate].
  rewrite String.eqb_eq. split; congruence.
Qed.

Lemma county_rows_missing (s : string) (votedata : list CountyRow)
    (field : CountyRow -> float) :
  (forall r, In r votedata -> state_abbr r = Some s -> is_nan (field r) = true) ->
  nansum (map field (county_rows s votedata)) = 0%float.
Proof.
  intros H. apply nansum_all_missing, List.Forall_forall.
  intros x Hx. apply in_map_iff in Hx as (r & <- & Hr).
  apply filter_In in Hr as [Hr Hs]. apply in_state_abbr in Hs. auto.
Qed.

(** X17: a state of the election table none of whose county rows
    reports a count still gets an entry in [voteDict]: its sums are 0,
    and both percentages are NaN, the division of 0 by 0 raising
    nothing. *)
Theorem state_without_counts_gets_nan (votedata : list CountyRow) (s : string)
    (r : CountyRow) :
  In r votedata -> state_abbr r = Some s ->
  (forall r', In r' votedata -> state_abbr r' = Some s -> no_counts r' = true) ->
  make_voteDict (grouped votedata) !! s = Some (nan, nan).
Proof.
  intros Hr Hs Hnone.
  destruct (make_voteDict (grouped votedata) !! s) as [p|] eqn:E.
  - apply voteDict_lookup in E as (row & Hrow & Hk & ->).
    unfold grouped, groupby_sum in Hrow. rewrite map_map in Hrow.
    apply in_map_iff in Hrow as (k & <- & _). simpl in Hk. subst k.
    cbn [recalculate st_per_dem st_per_gop sum_votes_dem sum_votes_gop sum_total_votes].
    rewrite !county_rows_missing; [reflexivity | | |];
      intros r' Hr' Hs'; specialize (Hnone r' Hr' Hs'); unfold no_counts in Hnone;
      apply andb_prop in Hnone as [Hnone H3]; apply andb_prop in Hnone as [H1 H2];
      assumption.
  - exfalso. exact (proj1 (voteDict_missing votedata s) E r Hr Hs).
Qed.

Lemma state_without_counts_gets_nan_witness :
  In (mkCounty (Some "AL") nan nan nan nan nan 1001) silent_votes /\
  (forall r', In r' silent_votes -> state_abbr r' = Some "AL" -> no_counts r' = true) /\
  make_voteDict (grouped silent_votes) !! "AL" = Some (nan, nan).
Proof.
  assert (H : forall r', In r' silent_votes -> state_abbr r' = Some "AL" ->
                         no_counts r' = true).
  { intros r' [<- | [<- | []]]; [discriminate | reflexivity]. }
  split; [simpl; tauto|]. split; [exact H|].
  apply (state_without_counts_gets_nan silent_votes "AL"
           (mkCounty (Some "AL") nan nan nan nan nan 1001));
    [simpl; tauto | reflexivity | exact H].
Defined.

(** ** Two units equally frequent *)

Section MergeSortAgree.

Context {A : Type} (R1 R2 : relation A).
Context `{!forall x y, Decision (R1 x y)} `{!forall x y, Decision (R2 x y)}.
Variable P : A -> Prop.
Hypothesis agree : forall x y, P x -> P y -> (R1 x y <-> R2 x y).

Lemma list_merge_agree (l1 l2 : list A) :
  Forall P l1 -> Forall P l2 -> list_merge R1 l1 l2 = list_merge R2 l1 l2.
Proof.
  revert l2. induction l1 as [|x1 l1 IH]; intros l2 H1 H2.
  - now destruct l2.
  - induction l2 as [|x2 l2 IH2]; [reflexivity|].
    rewrite !list_merge_cons.
    inversion H1 as [|? ? Px1 Hl1]; inversion H2 as [|? ? Px2 Hl2]; subst.
    pose proof (agree x1 x2 Px1 Px2) as Hag.
    destruct (decide (R1 x1 x2)), (decide (R2 x1 x2)); try tauto.
    + f_equal. now apply IH.
    + f_equal. now apply IH2.
Qed.

Lemma list_merge_Forall (l1 l2 : list A) :
  Forall P l1 -> Forall P l2 -> Forall P (list_merge R1 l1 l2).
Proof.
  intros H1 H2. rewrite (merge_Permutation R1 l1 l2). now apply Forall_app.
Qed.

Lemma merge_list_to_stack_agree (st : list (option (list A))) (l : list A) :
  Forall (fun o => match o with Some l => Forall P l | None => True end) st ->
  Forall P l ->
  merge_list_to_stack R1 st l = merge_list_to_stack R2 st l /\
  Forall (fun o => match o with Some l => Forall P l | None => True end)
    (merge_list_to_stack R1 st l).
Proof.
  revert l. induction st as [|[l'|] st IH]; intros l Hst Hl; simpl.
  - split; [reflexivity|]. now repeat constructor.
  - inversion Hst as [|? ? Hl' Hst']; subst.
    destruct (IH (list_merge R1 l' l) Hst' (list_merge_Forall _ _ Hl' Hl)) as [E Hok].
    split.
    + f_equal. now rewrite <- (list_merge_agree l' l Hl' Hl).
    + now constructor.
  - inversion Hst as [|? ? _ Hst']; subst.
    split; [reflexivity|]. now constructor.
Qed.

Lemma merge_stack_agree (st : list (option (list A))) :
  Forall (fun o => match o with Some l => Forall P l | None => True end) st ->
  merge_stack R1 st = merge_stack R2 st /\ Forall P (merge_stack R1 st).
Proof.
  induction st as [|[l|] st IH]; intros Hst; simpl.
  - split; [reflexivity | constructor].
  - inversion Hst as [|? ? Hl Hst']; subst.
    destruct (IH Hst') as [E Hok]. split.
    + rewrite <- E. now apply list_merge_agree.
    + now apply list_merge_Forall.
  - inversion Hst as [|? ? _ Hst']; subst. now apply IH.
Qed.

Lemma merge_sort_aux_agree (st : list (option (list A))) (l : list A) :
  Forall (fun o => match o with Some l => Forall P l | None => True end) st ->
  Forall P l ->
  merge_sort_aux R1 st l = merge_sort_aux R2 st l.
Proof.
  revert st. induction l as [|x l IH]; intros st Hst Hl; simpl.
  - now apply merge_stack_agree.
  - inversion Hl as [|? ? Hx Hl']; subst.
    destruct (merge_list_to_stack_agree st [x] Hst) as [E Hok]; [now repeat constructor|].
    rewrite <- E. now apply IH.
Qed.

(** Two orders that agree on the elements of a list sort it alike. *)
Lemma merge_sort_agree (l : list A) :
  Forall P l -> merge_sort R1 l = merge_sort R2 l.
Proof. intros Hl. apply merge_sort_aux_agree; [constructor | exact Hl]. Qed.

End MergeSortAgree.

(** The order of strings by code point is transitive. *)
Lemma ascii_compare_trans (a b c : ascii) (o : comparison) :
  Ascii.compare a b = o -> Ascii.compare b c = o -> Ascii.compare a c = o.
Proof.
  unfold Ascii.compare. destruct o.
  - rewrite !N.compare_eq_iff. congruence.
  - rewrite !N.compare_lt_iff. lia.
  - rewrite !N.compare_gt_iff. lia.
Qed.

Lemma string_compare_trans (s t u : string) :
  String.compare s t <> Gt -> String.compare t u <> Gt -> String.compare s u <> Gt.
Proof.
  revert t u. induction s as [|a s IH]; intros [|b t] [|c u]; simpl;
    try congruence.
  destruct (Ascii.compare a b) eqn:Eab; [| |congruence].
  - apply Ascii.compare_eq_iff in Eab. subst b.
    destruct (Ascii.compare a c); [apply IH | congruence | congruence].
  - destruct (Ascii.compare b c) eqn:Ebc; [| |congruence].
    + apply Ascii.compare_eq_iff in Ebc. subst c. rewrite Eab. congruence.
    + rewrite (ascii_compare_trans a b c Lt Eab Ebc). congruence.
Qed.

Lemma str_le_trans (s t u : string) : str_le s t -> str_le t u -> str_le s u.
Proof.
  unfold str_le, String.leb. intros H1 H2.
  pose proof (string_compare_trans s t u) as H.
  destruct (String.compare s t), (String.compare t u), (String.compare s u);
    try discriminate; try reflexivity; exfalso; apply H; congruence.
Qed.

Lemma cell_le_str_trans : Transitive cell_le_str.
Proof.
  intros [s|x] [t|y] [u|z]; simpl; try tauto. apply str_le_trans.
Qed.

Lemma cell_le_str_total : Total cell_le_str.
Proof.
  intros [s|x] [t|y]; simpl; try tauto. apply String.leb_total.
Qed.

Lemma mode_strings_sorted (tops : list cell) :
  Forall (fun c => is_str c = true) tops ->
  StronglySorted cell_le (merge_sort cell_le tops).
Proof.
  intros H.
  assert (Hs : Forall (fun c => is_str c = true) (merge_sort cell_le tops)).
  { now rewrite merge_sort_Permutation. }
  assert (E : merge_sort cell_le tops = merge_sort cell_le_str tops).
  { apply (merge_sort_agree cell_le cell_le_str (fun c => is_str c = true)); [|exact H].
    intros [s|x] [t|y]; simpl; try discriminate. tauto. }
  rewrite E in *. clear E.
  pose proof (@StronglySorted_merge_sort _ cell_le_str _ cell_le_str_trans
                  cell_le_str_total tops) as Hsorted.
  revert Hs Hsorted. generalize (merge_sort cell_le_str tops) as l.
  induction l as [|x l IH]; intros Hs Hsorted; [constructor|].
  inversion Hs as [|? ? Hx Hl]; inversion Hsorted as [|? ? Hsl Hxl]; subst.
  constructor; [now apply IH|].
  clear IH Hsorted Hsl Hs.
  induction Hxl as [|y l Hxy _ IHl]; [constructor|].
  inversion Hl; subst. constructor; [|now apply IHl].
  destruct x, y; try discriminate; exact Hxy.
Qed.

(** X18: when every unit present on the rows kept with a result is a
    string, the unit kept comes first, in the order of the code
    points, among the units present as often as it: of several most
    frequent units the smallest is taken. *)
Theorem tied_units_take_smallest {np_corrcoef : list (float * float) -> float}
    (gdf : GeoDataFrame) (CORRELATIONS : list Entry) (e : Entry) (du : list cell) :
  correlations np_corrcoef gdf = Ok CORRELATIONS ->
  In e CORRELATIONS ->
  get_attr (frame (sub_gdf e)) "DataValueUnit" = Ok du ->
  Forall (fun c => notna c = true -> is_str c = true) du ->
  forall c, In c du -> notna c = true ->
    occurrences c (List.filter notna du) = occurrences (units e) (List.filter notna du) ->
    cell_le (units e) c.
Proof.
  intros Hcs He Hdu Hstr c Hc Hna Hocc. unfold correlations in Hcs.
  destruct (get_attr (frame gdf) "Question") as [Q|]; [|discriminate]. cbn [rbind] in Hcs.
  destruct (process_all_In _ _ _ _ _ Hcs He) as [[] | (new & _ & Hnew & Hin)].
  set (q := question e) in Hnew. clearbody q.
  apply process_inv in Hnew as (sub & dv & pg & k & du' & _ & _ & _ & _ & Hdu' & ->).
  simpl in Hin. destruct (mode du') as [|u us] eqn:Em; [contradiction|].
  destruct Hin as [E | []]. clear He. subst e. cbn [sub_gdf units] in *.
  rewrite Hdu in Hdu'. injection Hdu' as <-.
  unfold mode in Em. set (present := List.filter notna du) in *.
  set (top := fold_right _ _ _) in Em.
  set (tops := List.filter _ (unique present)) in Em.
  assert (Hpresent : forall x, In x present -> is_str x = true).
  { intros x Hx. apply filter_In in Hx as [Hx Hxna].
    rewrite List.Forall_forall in Hstr. auto. }
  assert (Htops : Forall (fun x => is_str x = true) tops).
  { apply List.Forall_forall. intros x Hx. apply filter_In in Hx as [Hx _].
    apply Hpresent. now apply unique_In. }
  pose proof (mode_strings_sorted tops Htops) as Hsorted.
  assert (Hu : In u tops).
  { apply list_elem_of_In. rewrite <- (merge_sort_Permutation cell_le), Em.
    apply elem_of_cons. now left. }
  assert (Hctop : In c tops).
  { assert (Hcp : In c present) by (apply filter_In; auto).
    destruct (unique_represents present c Hcp) as (x & Hx & Ex).
    assert (x = c).
    { pose proof (Hpresent c Hcp) as Hcs'. pose proof (Hpresent x (unique_In _ _ Hx)) as Hxs.
      destruct x, c; try discriminate. simpl in Ex. congruence. }
    subst x. apply filter_In. split; [exact Hx|].
    apply filter_In in Hu as [_ Hu]. now rewrite Hocc. }
  apply list_elem_of_In in Hctop.
  rewrite <- (merge_sort_Permutation cell_le), Em in Hctop.
  rewrite Em in Hsorted. apply StronglySorted_cons in Hsorted as [Hall _].
  apply elem_of_cons in Hctop as [-> | Hin].
  - assert (Hus : is_str u = true) by (rewrite List.Forall_forall in Htops; auto).
    destruct u as [s|]; [|discriminate]. simpl.
    destruct (String.leb_total s s); assumption.
  - rewrite Forall_forall in Hall. auto.
Qed.

Lemma tied_correlations : correlations pearson tied_gdf = Ok tied_results.
Proof. vm_compute. reflexivity. Qed.

Lemma tied_first_entry :
  exists e rest du,
    tied_results = e :: rest /\
    get_attr (frame (sub_gdf e)) "DataValueUnit" = Ok du /\
    du = strs ["per 100,000"; "Number"; "%"] /\
    units e = CStr "%".
Proof.
  destruct tied_results as [|e rest] eqn:E; vm_compute in E; [discriminate|].
  injection E as <- <-. eexists _, _, _. repeat split; reflexivity.
Qed.

Lemma tied_units_take_smallest_witness :
  exists e du,
    In e tied_results /\
    get_attr (frame (sub_gdf e)) "DataValueUnit" = Ok du /\
    In (CStr "Number") du /\
    occurrences (CStr "Number") (List.filter notna du)
    = occurrences (units e) (List.filter notna du) /\
    units e = CStr "%" /\
    cell_le (units e) (CStr "Number").
Proof.
  destruct tied_first_entry as (e & rest & du & E & Hdu & Edu & Hu).
  exists e, du.
  assert (He : In e tied_results) by (rewrite E; now left).
  assert (Hn : In (CStr "Number") du) by (subst du; simpl; tauto).
  assert (Ho : occurrences (CStr "Number") (List.filter notna du)
               = occurrences (units e) (List.filter notna du)).
  { rewrite Hu. subst du. reflexivity. }
  assert (Hs : Forall (fun c => notna c = true -> is_str c = true) du).
  { subst du. repeat constructor. }
  repeat split; try assumption.
  exact (tied_units_take_smallest tied_gdf tied_results e du tied_correlations He Hdu Hs
           (CStr "Number") Hn eq_refl Ho).
Defined.
